(** * ndn::Validator (src/security/validator.cpp)

    A shallow embedding of the trust-chain validator: the asynchronous
    orchestration (validate / onData / onTimeout over a Face) as explicit
    state passing with an event log, and the signature verification
    functions as an exception-and-log monad over the external encoding and
    CryptoPP operations. *)

From Stdlib Require Import ZArith Lia.
From stdpp Require Import base list strings.

Open Scope Z_scope.

(** ** Data model *)

Definition Buffer := list Byte.byte.

(** Name: an ordered sequence of opaque binary components. *)
Definition Name := list Buffer.

Record Interest := mkInterest { getName : Name }.

(** encoding/block.hpp: a TLV element.  [b_header] holds the type and length
    octets, [b_value] the value octets, [b_elements] the parsed
    sub-elements (empty until parse() is called). *)
#[warnings="-register-all"]
Inductive Block := mkBlock (b_header b_value : Buffer) (b_elements : list Block).

Definition wire (b : Block) : Buffer :=
  match b with mkBlock h v _ => h ++ v end.
Definition value (b : Block) : Buffer :=
  match b with mkBlock _ v _ => v end.
Definition getAll (b : Block) : list Block :=
  match b with mkBlock _ _ es => es end.
(** size() counts the whole element, value_size() only the value octets. *)
Definition size (b : Block) : Z := Z.of_nat (length (wire b)).
Definition value_size (b : Block) : Z := Z.of_nat (length (value b)).

Record Signature := mkSignature
  { getType : Z; getInfo : Block; getValue : Block }.

Record Data := mkData
  { d_name : Name; d_content : Buffer; getSignature : Signature }.

Record PublicKey := mkPublicKey { get : Buffer }.

(** A validation subject: the two overloads of validate take a
    shared_ptr<const Interest> or a shared_ptr<const Data>. *)
Inductive Subject :=
| SInterest (interest : Interest)
| SData (data : Data).

(** Continuations (OnDataValidated, OnDataValidationFailed, ...) are
    std::function objects owned by callers and by the policy; the validator
    only stores, binds and invokes them, so they are named, and every
    invocation is recorded in the log. *)
Definition Callback := string.

(** OnFailure = bind(onValidationFailed, subject). *)
Record OnFailure := bindFailure
  { of_callback : Callback; of_subject : Subject }.

(** validation-request.hpp: the record behind shared_ptr<ValidationRequest>.
    m_onDataValidated is the continuation used when validation of the
    fetched certificate fails. *)
Record ValidationRequest := mkValidationRequest
  { m_interest : Interest;
    m_onValidated : Callback;
    m_onDataValidated : Callback;
    m_retry : Z;
    m_stepCount : Z }.

(** shared_ptr<ValidationRequest>: an index in the store of requests. *)
Definition ptr := nat.

(** The two closures handed to Face::expressInterest:
    bind(&Validator::onData, this, _1, _2, nextStep) and
    bind(&Validator::onTimeout, this, _1, retry, onFailure, nextStep). *)
Inductive OnDataCb := BindOnData (nextStep : ptr).
Inductive OnTimeoutCb :=
  BindOnTimeout (retry : Z) (onFailure : OnFailure) (nextStep : ptr).

(** An entry of the Face's table of pending interests. *)
Record PendingInterest := mkPending
  { pi_interest : Interest;
    pi_onData : OnDataCb;
    pi_onTimeout : OnTimeoutCb }.

Record Face := mkFace { pit : list PendingInterest }.

(** What an observer sees of a run: the checkPolicy calls with the requests
    they returned, the continuations the policy invoked itself, the
    interests expressed with their two bound callbacks, and the failure
    closures invoked by onTimeout. *)
Inductive Event :=
| EvCheckPolicy (s : Subject) (stepCount : Z)
    (onValidated onValidationFailed : Callback)
    (returned : list ValidationRequest)
| EvCallback (cb : Callback) (s : Subject)
| EvExpressInterest (i : Interest) (onData : OnDataCb) (onTimeout : OnTimeoutCb)
| EvOnFailure (f : OnFailure).

(** The validator (m_face), the store of ValidationRequest objects reachable
    through shared pointers, and the log. *)
Record World := mkWorld
  { m_face : option Face;
    heap : list ValidationRequest;
    log : list Event }.

(** A call either returns or throws Validator::Error. *)
Inductive Outcome :=
| Normal (w : World)
| Throw (what : string) (w : World).

Definition world_of (o : Outcome) : World :=
  match o with Normal w => w | Throw _ w => w end.

(** What a policy does in one checkPolicy call: the continuations it invokes
    directly and the requests it pushes onto nextSteps. *)
Record PolicyResult := mkPolicyResult
  { direct_calls : list (Callback * Subject);
    nextSteps : list ValidationRequest }.

(** checkPolicy is a virtual method of a policy object that may keep state:
    its answer may depend on everything logged so far. *)
Definition Policy :=
  list Event -> Subject -> Z -> Callback -> Callback -> PolicyResult.

(** Events from the event loop that owns the Face: the n-th pending interest
    receives data, or times out. *)
Inductive FaceEvent :=
| DataArrives (n : nat) (d : Data)
| TimesOut (n : nat).

(** ** The orchestrator *)

Definition record (e : Event) (w : World) : World :=
  mkWorld (m_face w) (heap w) (log w ++ [e]).

(** m_face->expressInterest(i, onData, onTimeout).  Reached only with the
    face set: validate tests m_face first, onTimeout runs as a callback of
    that face. *)
Definition expressInterest (i : Interest) (od : OnDataCb) (ot : OnTimeoutCb)
    (w : World) : World :=
  mkWorld ((fun f => mkFace (pit f ++ [mkPending i od ot])) <$> m_face w)
          (heap w)
          (log w ++ [EvExpressInterest i od ot]).

(** The pointers of the requests of one checkPolicy call, in a store that
    holds [h] already. *)
Definition fresh_steps (h : list ValidationRequest)
    (rs : list ValidationRequest) : list (ptr * ValidationRequest) :=
  imap (fun k r => ((length h + k)%nat, r)) rs.

(** The requests a policy returns are new objects: they are appended to the
    store and nextSteps holds their pointers. *)
Definition allocate (rs : list ValidationRequest) (w : World)
    : list (ptr * ValidationRequest) * World :=
  (fresh_steps (heap w) rs, mkWorld (m_face w) (heap w ++ rs) (log w)).

(** What one checkPolicy call adds to the log. *)
Definition policy_events (res : PolicyResult) (s : Subject) (n : Z)
    (v k : Callback) : list Event :=
  EvCheckPolicy s n v k (nextSteps res)
    :: map (fun c => EvCallback c.1 c.2) (direct_calls res).

Definition run_checkPolicy (checkPolicy : Policy) (s : Subject) (stepCount : Z)
    (onValidated onValidationFailed : Callback) (w : World)
    : list (ptr * ValidationRequest) * World :=
  let res := checkPolicy (log w) s stepCount onValidated onValidationFailed in
  let w1 := mkWorld (m_face w) (heap w)
              (log w ++ policy_events res s stepCount onValidated
                          onValidationFailed) in
  allocate (nextSteps res) w1.

(** The for loop of validate: one expressInterest per element of nextSteps,
    in order. *)
Definition issue (onFailure : OnFailure) (w : World)
    (it : ptr * ValidationRequest) : World :=
  expressInterest (m_interest it.2)
                  (BindOnData it.1)
                  (BindOnTimeout (m_retry it.2) onFailure it.1)
                  w.

(** Validator::validate, lines 26-55 (Interest) and 57-86 (Data): the two
    bodies are the same text, so the subject is the sum of both. *)
Definition validate (checkPolicy : Policy) (s : Subject)
    (onValidated onValidationFailed : Callback) (stepCount : Z)
    (w : World) : Outcome :=
  let '(steps, w1) :=
    run_checkPolicy checkPolicy s stepCount onValidated onValidationFailed w in
  match steps with
  | [] => Normal w1
  | _ :: _ =>
      match m_face w1 with
      | None => Throw "Face should be set prior to verify method to call" w1
      | Some _ =>
          let onFailure := bindFailure onValidationFailed s in
          Normal (foldl (issue onFailure) w1 steps)
      end
  end.

(** Validator::onData, lines 88-94.  None: nextStep dangles (never the case
    for a pointer the validator bound itself). *)
Definition onData (checkPolicy : Policy) (interest : Interest) (data : Data)
    (nextStep : ptr) (w : World) : option Outcome :=
  r ← heap w !! nextStep;
  Some (validate checkPolicy (SData data) (m_onValidated r)
          (m_onDataValidated r) (m_stepCount r) w).

(** Validator::onTimeout, lines 96-109.  retry is an int; retry - 1 is only
    computed for retry > 0, so it cannot overflow. *)
Definition onTimeout (interest : Interest) (retry : Z) (onFailure : OnFailure)
    (nextStep : ptr) (w : World) : Outcome :=
  if 0 <? retry then
    Normal (expressInterest interest
              (BindOnData nextStep)
              (BindOnTimeout (retry - 1) onFailure nextStep) w)
  else
    Normal (record (EvOnFailure onFailure) w).

(** The Face answers a pending interest with exactly one of its two
    callbacks, handing it the interest that was expressed, and forgets the
    entry. *)
Definition remove_pending (n : nat) (w : World) : World :=
  mkWorld ((fun f => mkFace (delete n (pit f))) <$> m_face w) (heap w) (log w).

Definition step (checkPolicy : Policy) (ev : FaceEvent) (w : World)
    : option Outcome :=
  f ← m_face w;
  match ev with
  | DataArrives n d =>
      p ← pit f !! n;
      match pi_onData p with
      | BindOnData nextStep =>
          onData checkPolicy (pi_interest p) d nextStep (remove_pending n w)
      end
  | TimesOut n =>
      p ← pit f !! n;
      match pi_onTimeout p with
      | BindOnTimeout retry onFailure nextStep =>
          Some (onTimeout (pi_interest p) retry onFailure nextStep
                  (remove_pending n w))
      end
  end.

(** A run of the event loop; it ends where a callback throws. *)
Fixpoint run (checkPolicy : Policy) (evs : list FaceEvent) (w : World)
    : option Outcome :=
  match evs with
  | [] => Some (Normal w)
  | ev :: evs' =>
      match step checkPolicy ev w with
      | Some (Normal w') => run checkPolicy evs' w'
      | other => other
      end
  end.

(** A validator constructed with a face and nothing in flight. *)
Definition fresh : World := mkWorld (Some (mkFace [])) [] [].
(** A validator constructed with DefaultFace (a null pointer). *)
Definition faceless : World := mkWorld None [] [].

(** ** Signature verification *)

(** The exception classes that can cross verifySignature: the two it
    catches, and those of the TLV decoder and of CryptoPP, which it does
    not name.  None of them derives from another. *)
Inductive Exception :=
| Signature_Error
| Block_Error
| Tlv_Error
| CryptoPP_Exception.

(** A C++ expression returns, throws, or has no defined behaviour
    (dereferencing an iterator past the end). *)
Inductive Result (A : Type) :=
| Returns (a : A)
| Throws (e : Exception)
| Undefined.
Arguments Returns {A} a.
Arguments Throws {A} e.
Arguments Undefined {A}.

(** CryptoPP::RSA::PublicKey after a successful Load. *)
Record RSA_PublicKey := mkRSA { modulus : Z; exponent : Z }.

(** Calls that leave validator.cpp, in the order they are made. *)
Inductive Op :=
| OpNameWireEncode (n : Name)
| OpParse (b : Block)
| OpBlockFromValue (b : Block)
| OpSignature (info val : Block)
| OpSignatureSha256WithRsa (sig : Signature)
| OpDataWireEncode (d : Data)
| OpLoad (key : Buffer)
| OpVerifyMessage (msg : Buffer) (len : Z) (sig : Buffer) (siglen : Z).

(** The operations of the encoding layer and of CryptoPP that the
    verification functions call; their code is not part of this unit, so
    each is taken as given, with the exceptions it may raise.  The last
    field is a choice of the compiler: the two arguments of the Signature
    constructor call at lines 148-149 are evaluated in an order the
    language leaves open; [value_argument_first] holds when the second
    argument (the last component, the signature value) is decoded before
    the first. *)
Record Library := mkLibrary
  { Sha256WithRsa : Z;
    Name_wireEncode : Name -> Result Block;
    Block_parse : Block -> Result Block;
    blockFromValue : Block -> Result Block;
    Signature_ctor : Block -> Block -> Result Signature;
    SignatureSha256WithRsa_ctor : Signature -> Result Signature;
    Data_wireEncode : Data -> Result Block;
    RSA_Load : Buffer -> Result RSA_PublicKey;
    VerifyMessage : RSA_PublicKey -> Buffer -> Z -> Buffer -> Z -> bool;
    value_argument_first : bool }.

(** Computations that may throw, over the list of calls made so far. *)
Definition M (A : Type) := list Op -> Result A * list Op.

Definition ret {A} (a : A) : M A := fun l => (Returns a, l).

Definition bind {A B} (m : M A) (k : A -> M B) : M B :=
  fun l =>
    match m l with
    | (Returns a, l') => k a l'
    | (Throws e, l') => (Throws e, l')
    | (Undefined, l') => (Undefined, l')
    end.

Definition call {A} (op : Op) (r : Result A) : M A :=
  fun l => (r, l ++ [op]).

Definition undefined {A} : M A := fun l => (Undefined, l).

(** try { m } catch (the exceptions selected by [catches]) { h }. *)
Definition try_catch {A} (m : M A) (catches : Exception -> bool) (h : M A)
    : M A :=
  fun l =>
    match m l with
    | (Throws e, l') => if catches e then h l' else (Throws e, l')
    | other => other
    end.

Notation "x <-- m ;; k" := (bind m (fun x => k))
  (at level 100, m at next level, right associativity).

(** Unsigned subtraction on size_t (64 bits). *)
Definition size_t_sub (a b : Z) : Z := (a - b) mod 2 ^ 64.

(** The bytes a (pointer, length) pair designates inside the buffer the
    pointer points into. *)
Definition byte_range (buf : Buffer) (len : Z) : Buffer :=
  take (Z.to_nat len) buf.

(** rbegin() advanced k times and dereferenced. *)
Definition from_rbegin (k : nat) (l : list Block) : M Block :=
  match rev l !! k with
  | Some b => ret b
  | None => undefined
  end.

Definition catches_Signature (e : Exception) : bool :=
  match e with Signature_Error => true | _ => false end.

Definition catches_Signature_Block (e : Exception) : bool :=
  match e with Signature_Error | Block_Error => true | _ => false end.

Section Verification.
Variable L : Library.

(** The RSA/PKCS1v15/SHA256 part common to the three overloads: load the
    key bytes, then verify. *)
Definition rsa_verify (msg : Buffer) (len : Z) (sig : Signature)
    (key : PublicKey) : M bool :=
  publicKey <-- call (OpLoad (get key)) (RSA_Load L (get key)) ;;
  let s := value (getValue sig) in
  let n := value_size (getValue sig) in
  call (OpVerifyMessage msg len s n)
       (Returns (VerifyMessage L publicKey msg len s n)).

(** verifySignature(const uint8_t*, size_t, SignatureSha256WithRsa, PublicKey),
    lines 241-258. *)
Definition verifySignature_raw_rsa (buf : Buffer) (sz : Z) (sig : Signature)
    (key : PublicKey) : M bool :=
  rsa_verify buf sz sig key.

(** verifySignature(Buffer, SignatureSha256WithRsa, PublicKey), lines 221-239. *)
Definition verifySignature_Buffer_rsa (data : Buffer) (sig : Signature)
    (key : PublicKey) : M bool :=
  rsa_verify data (Z.of_nat (length data)) sig key.

(** verifySignature(Data, SignatureSha256WithRsa, PublicKey), lines 199-219.
    The key is loaded first; the arguments of VerifyMessage then call
    wireEncode twice. *)
Definition verifySignature_Data_rsa (data : Data) (sig : Signature)
    (key : PublicKey) : M bool :=
  publicKey <-- call (OpLoad (get key)) (RSA_Load L (get key)) ;;
  b1 <-- call (OpDataWireEncode data) (Data_wireEncode L data) ;;
  b2 <-- call (OpDataWireEncode data) (Data_wireEncode L data) ;;
  let msg := value b1 in
  let len := size_t_sub (value_size b2) (size (getValue (getSignature data))) in
  let s := value (getValue sig) in
  let n := value_size (getValue sig) in
  call (OpVerifyMessage msg len s n)
       (Returns (VerifyMessage L publicKey msg len s n)).

(** verifySignature(Data, PublicKey), lines 111-132. *)
Definition verifySignature_Data (data : Data) (key : PublicKey) : M bool :=
  try_catch
    (if getType (getSignature data) =? Sha256WithRsa L then
       sigSha256Rsa <-- call (OpSignatureSha256WithRsa (getSignature data))
                          (SignatureSha256WithRsa_ctor L (getSignature data)) ;;
       verifySignature_Data_rsa data sigSha256Rsa key
     else ret false)
    catches_Signature
    (ret false).

(** One argument of the Signature constructor call at lines 148-149:
    rbegin() advanced k times, dereferenced, and ->blockFromValue(). *)
Definition component_block (nameBlock : Block) (k : nat) : M Block :=
  c <-- from_rbegin k (getAll nameBlock) ;;
  call (OpBlockFromValue c) (blockFromValue L c).

(** Lines 143-149 of verifySignature(Interest, PublicKey): encode the name,
    parse it when its elements are not there yet, and build the Signature
    from the last two components: the second-to-last is the first argument
    (info), the last is the second argument (value); the two arguments are
    evaluated in the order the compiler chose. *)
Definition interest_signature (interestName : Name) : M (Block * Signature) :=
  nameBlock <-- call (OpNameWireEncode interestName)
                  (Name_wireEncode L interestName) ;;
  nameBlock <--
    (if bool_decide (Z.of_nat (length (getAll nameBlock))
                     = Z.of_nat (length interestName))
     then ret nameBlock
     else call (OpParse nameBlock) (Block_parse L nameBlock)) ;;
  args <--
    (if value_argument_first L
     then val <-- component_block nameBlock 0 ;;
          info <-- component_block nameBlock 1 ;;
          ret (info, val)
     else info <-- component_block nameBlock 1 ;;
          val <-- component_block nameBlock 0 ;;
          ret (info, val)) ;;
  sig <-- call (OpSignature args.1 args.2) (Signature_ctor L args.1 args.2) ;;
  ret (nameBlock, sig).

(** Lines 151-165: the switch on the type of the decoded signature. *)
Definition interest_switch (nameBlock : Block) (sig : Signature)
    (key : PublicKey) : M bool :=
  if getType sig =? Sha256WithRsa L then
    sigSha256Rsa <-- call (OpSignatureSha256WithRsa sig)
                       (SignatureSha256WithRsa_ctor L sig) ;;
    last <-- from_rbegin 0 (getAll nameBlock) ;;
    verifySignature_raw_rsa (value nameBlock)
      (size_t_sub (value_size nameBlock) (size last))
      sigSha256Rsa key
  else ret false.

(** verifySignature(Interest, PublicKey), lines 134-174. *)
Definition verifySignature_Interest (interest : Interest) (key : PublicKey)
    : M bool :=
  let interestName := getName interest in
  if Z.of_nat (length interestName) <? 3 then ret false
  else
    try_catch
      (ns <-- interest_signature interestName ;;
       interest_switch ns.1 ns.2 key)
      catches_Signature_Block
      (ret false).

(** verifySignature(Buffer, Signature, PublicKey), lines 176-197. *)
Definition verifySignature_Buffer (data : Buffer) (sig : Signature)
    (key : PublicKey) : M bool :=
  try_catch
    (if getType sig =? Sha256WithRsa L then
       sigSha256Rsa <-- call (OpSignatureSha256WithRsa sig)
                          (SignatureSha256WithRsa_ctor L sig) ;;
       verifySignature_Buffer_rsa data sigSha256Rsa key
     else ret false)
    catches_Signature
    (ret false).

End Verification.

(** The cryptographic calls among the calls made. *)
Definition is_crypto (op : Op) : bool :=
  match op with
  | OpLoad _ | OpVerifyMessage _ _ _ _ => true
  | _ => false
  end.

Definition crypto_ops (l : list Op) : list Op := filter (fun op => is_crypto op = true) l.

(** ** Reading a log *)

(** The pending interest validate registers for an element of nextSteps. *)
Definition pending_of (onFailure : OnFailure) (it : ptr * ValidationRequest)
    : PendingInterest :=
  mkPending (m_interest it.2) (BindOnData it.1)
            (BindOnTimeout (m_retry it.2) onFailure it.1).

Definition express_event (p : PendingInterest) : Event :=
  EvExpressInterest (pi_interest p) (pi_onData p) (pi_onTimeout p).

(** The failure closure bound into a pending interest. *)
Definition closure_of (p : PendingInterest) : OnFailure :=
  match pi_onTimeout p with BindOnTimeout _ f _ => f end.

(** The request a pending interest belongs to. *)
Definition request_of (p : PendingInterest) : ptr :=
  match pi_onData p with BindOnData q => q end.

Definition failure_of (e : Event) : option OnFailure :=
  match e with EvOnFailure f => Some f | _ => None end.

(** The failure closures onTimeout has invoked, in order. *)
Definition failures (l : list Event) : list OnFailure := omap failure_of l.

(** One copy of bind(onValidationFailed, subject) for every request a
    checkPolicy call returned. *)
Definition issued_by (e : Event) : list OnFailure :=
  match e with
  | EvCheckPolicy s n v k returned =>
      replicate (length returned) (bindFailure k s)
  | _ => []
  end.

Definition issued (l : list Event) : list OnFailure := l ≫= issued_by.

(** "Invoked at most once": no two positions of the log hold an invocation
    of the closure. *)
Definition invoked_at_most_once (f : OnFailure) (l : list Event) : Prop :=
  forall i j, l !! i = Some (EvOnFailure f) -> l !! j = Some (EvOnFailure f) ->
              i = j.

(** The fetches issued for request p. *)
Definition fetch_for (p : ptr) (e : Event) : bool :=
  match e with
  | EvExpressInterest _ (BindOnData q) _ => bool_decide (q = p)
  | _ => false
  end.

Definition fetches_for (p : ptr) (l : list Event) : list Event :=
  filter (fun e => fetch_for p e = true) l.

(** All fetches issued. *)
Definition is_fetch (e : Event) : bool :=
  match e with EvExpressInterest _ _ _ => true | _ => false end.

Definition fetches_issued (l : list Event) : list Event :=
  filter (fun e => is_fetch e = true) l.

Definition is_timeout (ev : FaceEvent) : Prop :=
  match ev with TimesOut _ => True | DataArrives _ _ => False end.

(** The j-th reissue of a fetch first issued with retry count R. *)
Definition reissue (i : Interest) (f : OnFailure) (p : ptr) (R : Z) (j : nat)
    : PendingInterest :=
  mkPending i (BindOnData p) (BindOnTimeout (R - Z.of_nat j) f p).

(** k successive timeouts of the fetch that starts at position [pos] of a
    table of [len] entries: a reissue goes to the end of the table. *)
Definition timeouts (pos len : nat) (k : nat) : list FaceEvent :=
  match k with
  | O => []
  | S k' => TimesOut pos :: replicate k' (TimesOut (len - 1)%nat)
  end.

(** The message bytes handed to VerifyMessage, call by call. *)
Definition handed_of (op : Op) : option Buffer :=
  match op with
  | OpVerifyMessage msg len _ _ => Some (byte_range msg len)
  | _ => None
  end.

Definition handed (l : list Op) : list Buffer := omap handed_of l.

(** The signed ranges as the specification words them: the whole encoding
    of the object (of the name) without the trailing signature-value
    bytes, where the trailing bytes are those of the signature-value
    element. *)
Definition spec_signed_range (encoding : Block) (sigValue : Block) : Buffer :=
  take (length (wire encoding) - length (wire sigValue))%nat (wire encoding).

(** The same with only the value octets of the signature taken off. *)
Definition spec_signed_range_octets (encoding : Block) (sigValue : Block)
    : Buffer :=
  take (length (wire encoding) - length (value sigValue))%nat (wire encoding).

(** ** Invariants of a run *)

(** The data arrivals among the events of a run. *)
Definition is_arrival (ev : FaceEvent) : bool :=
  match ev with DataArrives _ _ => true | TimesOut _ => false end.

Definition arrivals (evs : list FaceEvent) : nat :=
  length (filter (fun ev => is_arrival ev = true) evs).

(** The request bound into the onTimeout callback of a pending interest. *)
Definition timeout_request (e : PendingInterest) : ptr :=
  match pi_onTimeout e with BindOnTimeout _ _ p => p end.

(** What becomes of the failure closures between two worlds: with [added]
    the events logged in between and [consumed] the closures of the
    fetches answered by data, the closures invoked, those still pending
    and those consumed are, one for one, the closures pending before and
    those of the requests returned in between. *)
Definition conserved (w w' : World) (added : list Event)
    (consumed : list OnFailure) : Prop :=
  exists fc fc',
    m_face w = Some fc /\ m_face w' = Some fc' /\
    log w' = log w ++ added /\
    failures added ++ map closure_of (pit fc') ++ consumed
      ≡ₚ map closure_of (pit fc) ++ issued added.

(** The requests with pointers from a up to b, the end excluded, are all
    allocated, and every pending interest whose onTimeout is bound to one
    of them carries the closure c. *)
Definition owned (a b : nat) (c : OnFailure) (w : World) : Prop :=
  (b <= length (heap w))%nat /\
  exists fc, m_face w = Some fc /\
    forall e, e ∈ pit fc -> (a <= timeout_request e < b)%nat ->
              closure_of e = c.

(** A computation is quiet when it makes no cryptographic call. *)
Definition quiet {A} (m : M A) : Prop :=
  forall l, crypto_ops (m l).2 = crypto_ops l.

(** The timeouts a pending interest can still take: one for each retry
    left, and the one that exhausts it. *)
Definition budget (e : PendingInterest) : nat :=
  match pi_onTimeout e with BindOnTimeout retry _ _ => S (Z.to_nat retry) end.

Definition remaining (w : World) : nat :=
  match m_face w with
  | Some fc => sum_list_with budget (pit fc)
  | None => 0%nat
  end.

(** A pending interest is in order when it is a fetch of a request of the
    store: the request's own interest, both callbacks bound to the request,
    a retry argument that is the request's count lowered once per fetch
    already made after the first. *)
Definition entry_ok (h : list ValidationRequest) (l : list Event)
    (e : PendingInterest) : Prop :=
  exists p r retry f,
    e = mkPending (m_interest r) (BindOnData p) (BindOnTimeout retry f p) /\
    h !! p = Some r /\
    (0 <= retry \/ retry = m_retry r) /\
    Z.of_nat (length (fetches_for p l)) = m_retry r - retry + 1.

(** The discipline validate and the two callbacks keep: no request has two
    fetches in flight, every pending interest is in order, a request
    without a pending interest has been fetched at most max(0, m_retry) + 1
    times, nothing was fetched for pointers not yet allocated, and every
    interest ever expressed is the stored interest of its request. *)
Definition disciplined (w : World) : Prop :=
  exists fc,
    m_face w = Some fc /\
    NoDup (map request_of (pit fc)) /\
    Forall (entry_ok (heap w) (log w)) (pit fc) /\
    (forall p r, heap w !! p = Some r -> p ∉ map request_of (pit fc) ->
       Z.of_nat (length (fetches_for p (log w))) <= Z.max 0 (m_retry r) + 1) /\
    (forall p, (length (heap w) <= p)%nat -> fetches_for p (log w) = []) /\
    (forall i q ot, EvExpressInterest i (BindOnData q) ot ∈ log w ->
       exists r, heap w !! q = Some r /\ i = m_interest r).

(** ** Sample objects and collaborators *)

Module Sample.

Definition comp (s : string) : Buffer := String.list_byte_of_string s.

Definition interestA : Interest := mkInterest [comp "cert"; comp "A"].
Definition interestB : Interest := mkInterest [comp "cert"; comp "B"].

Definition sigValueBlock : Block :=
  mkBlock [Byte.x17; Byte.x02] [Byte.xca; Byte.xfe] [].
Definition sigInfoBlock : Block :=
  mkBlock [Byte.x16; Byte.x03] [Byte.x1b; Byte.x01; Byte.x01] [].

Definition rsaSignature : Signature := mkSignature 1 sigInfoBlock sigValueBlock.
Definition otherSignature : Signature := mkSignature 0 sigInfoBlock sigValueBlock.

Definition D : Data := mkData [comp "D"] [Byte.x2a] rsaSignature.
Definition certA : Data := mkData [comp "cert"; comp "A"] [Byte.x01] rsaSignature.
Definition unsignedD : Data := mkData [comp "D"] [Byte.x2a] otherSignature.

Definition request (i : Interest) (retry stepCount : Z) : ValidationRequest :=
  mkValidationRequest i "onCertificateValidated" "onCertificateValidationFailed"
    retry stepCount.

(** A policy that asks for two certificates at once at the top level and
    decides by itself on anything fetched. *)
Definition twoSiblings : Policy :=
  fun _ s stepCount onValidated onValidationFailed =>
    if stepCount =? 0
    then mkPolicyResult [] [request interestA 0 1; request interestB 0 1]
    else mkPolicyResult [(onValidated, s)] [].

(** A policy that follows a chain of two certificates. *)
Definition chain : Policy :=
  fun _ s stepCount onValidated onValidationFailed =>
    if stepCount =? 0 then mkPolicyResult [] [request interestA 2 1]
    else if stepCount =? 1 then mkPolicyResult [] [request interestB 0 2]
    else mkPolicyResult [(onValidated, s)] [].

(** A policy that decides at once. *)
Definition acceptAll : Policy :=
  fun _ s stepCount onValidated onValidationFailed =>
    mkPolicyResult [(onValidated, s)] [].

(** The encoding of D: a Data element whose value ends with the
    SignatureInfo and SignatureValue elements. *)
Definition encodedD : Block :=
  mkBlock [Byte.x06; Byte.x11]
          ([Byte.x07; Byte.x03; Byte.x08; Byte.x01; Byte.x44;
            Byte.x15; Byte.x01; Byte.x2a]
           ++ wire sigInfoBlock ++ wire sigValueBlock) [].

(** A signed interest name /D/<info>/<value>, its encoding and elements. *)
Definition compD : Block := mkBlock [Byte.x08; Byte.x01] [Byte.x44] [].
Definition compInfo : Block := mkBlock [Byte.x08; Byte.x05] (wire sigInfoBlock) [].
Definition compValue : Block := mkBlock [Byte.x08; Byte.x04] (wire sigValueBlock) [].

Definition signedName : Name := [value compD; value compInfo; value compValue].
Definition signedInterest : Interest := mkInterest signedName.
Definition shortInterest : Interest := mkInterest [comp "D"; comp "sig"].

Definition encodedName : Block :=
  mkBlock [Byte.x07; Byte.x10]
          (wire compD ++ wire compInfo ++ wire compValue)
          [compD; compInfo; compValue].

(** An encoding layer that knows the sample objects, and a CryptoPP whose
    key loader rejects an empty key with BERDecodeErr. *)
Definition lib (sigType : Z) : Library :=
  {| Sha256WithRsa := 1;
     Name_wireEncode := fun _ => Returns encodedName;
     Block_parse := fun b => Returns b;
     blockFromValue := fun b =>
       match value b with
       | [] => Throws Block_Error
       | Byte.x16 :: _ => Returns sigInfoBlock
       | _ => Returns sigValueBlock
       end;
     Signature_ctor := fun info val => Returns (mkSignature sigType info val);
     SignatureSha256WithRsa_ctor := fun s =>
       if getType s =? 1 then Returns s else Throws Signature_Error;
     Data_wireEncode := fun _ => Returns encodedD;
     RSA_Load := fun key =>
       match key with
       | [] => Throws CryptoPP_Exception
       | _ => Returns (mkRSA 3233 17)
       end;
     VerifyMessage := fun _ _ _ _ _ => true;
     value_argument_first := true |}.

(** The same with a signature conversion that rejects every signature. *)
Definition rejectingLib : Library :=
  {| Sha256WithRsa := 1;
     Name_wireEncode := Name_wireEncode (lib 1);
     Block_parse := Block_parse (lib 1);
     blockFromValue := blockFromValue (lib 1);
     Signature_ctor := Signature_ctor (lib 1);
     SignatureSha256WithRsa_ctor := fun _ => Throws Signature_Error;
     Data_wireEncode := Data_wireEncode (lib 1);
     RSA_Load := RSA_Load (lib 1);
     VerifyMessage := VerifyMessage (lib 1);
     value_argument_first := true |}.

Definition goodKey : PublicKey := mkPublicKey [Byte.x30; Byte.x00].
Definition emptyKey : PublicKey := mkPublicKey [].

End Sample.

(** ** What validate does to the world *)

Lemma run_checkPolicy_eq P s n v k w :
  run_checkPolicy P s n v k w =
  (fresh_steps (heap w) (nextSteps (P (log w) s n v k)),
   mkWorld (m_face w) (heap w ++ nextSteps (P (log w) s n v k))
           (log w ++ policy_events (P (log w) s n v k) s n v k)).
Proof.
  reflexivity.
Qed.

Lemma foldl_issue f steps : forall w,
  foldl (issue f) w steps =
  mkWorld ((fun fc => mkFace (pit fc ++ map (pending_of f) steps)) <$> m_face w)
          (heap w)
          (log w ++ map express_event (map (pending_of f) steps)).
Proof.
  induction steps as [|it steps IH]; intros [fc h l]; simpl.
  - rewrite app_nil_r. destruct fc as [[p]|]; simpl; rewrite ?app_nil_r; reflexivity.
  - rewrite IH. unfold issue, expressInterest; simpl.
    rewrite <- !app_assoc. destruct fc as [[p]|]; simpl;
      rewrite <- ?app_assoc; reflexivity.
Qed.

(** With a face, validate returns; the world it leaves is the one below
    (also when nextSteps is empty: nothing is appended then). *)
Lemma validate_with_face P s v k n w fc :
  m_face w = Some fc ->
  validate P s v k n w =
  Normal (mkWorld
    (Some (mkFace (pit fc ++ map (pending_of (bindFailure k s))
                               (fresh_steps (heap w) (nextSteps (P (log w) s n v k))))))
    (heap w ++ nextSteps (P (log w) s n v k))
    (log w ++ policy_events (P (log w) s n v k) s n v k
       ++ map express_event
            (map (pending_of (bindFailure k s))
                 (fresh_steps (heap w) (nextSteps (P (log w) s n v k)))))).
Proof.
  intros Hf. unfold validate. rewrite run_checkPolicy_eq. simpl.
  destruct (fresh_steps (heap w) (nextSteps (P (log w) s n v k))) as [|it steps] eqn:E.
  - simpl. rewrite !app_nil_r. rewrite Hf. destruct fc as [p]. reflexivity.
  - rewrite Hf. rewrite foldl_issue. simpl.
    rewrite <- app_assoc. reflexivity.
Qed.

Lemma fresh_steps_nil h rs : fresh_steps h rs = [] <-> rs = [].
Proof.
  unfold fresh_steps. split.
  - intros E. apply (f_equal length) in E. rewrite length_imap in E.
    destruct rs; [reflexivity | discriminate].
  - intros ->. reflexivity.
Qed.

Lemma fresh_steps_ptr h rs it :
  it ∈ fresh_steps h rs -> (length h <= it.1)%nat.
Proof.
  unfold fresh_steps. intros Hin.
  apply list_elem_of_lookup in Hin as [i Hi].
  rewrite list_lookup_imap in Hi.
  destruct (rs !! i); simpl in Hi; [|discriminate].
  injection Hi as <-. simpl. lia.
Qed.

(** Each request checkPolicy returned is in the store under its pointer and
    has one pending interest: its own m_interest, with onData bound to the
    request and onTimeout bound to its m_retry, the closure of this call
    and the request. *)
Lemma validate_issues P s v k n w fc j r :
  m_face w = Some fc ->
  nextSteps (P (log w) s n v k) !! j = Some r ->
  exists w' fc',
    validate P s v k n w = Normal w' /\ m_face w' = Some fc' /\
    heap w' !! (length (heap w) + j)%nat = Some r /\
    pit fc' !! (length (pit fc) + j)%nat
      = Some (pending_of (bindFailure k s) ((length (heap w) + j)%nat, r)).
Proof.
  intros Hf Hj. rewrite (validate_with_face P s v k n w fc Hf).
  eexists. eexists. split; [reflexivity|]. split; [reflexivity|].
  cbn [heap pit]. split.
  - rewrite lookup_app_r by lia.
    replace (length (heap w) + j - length (heap w))%nat with j by lia.
    exact Hj.
  - rewrite lookup_app_r by lia.
    replace (length (pit fc) + j - length (pit fc))%nat with j by lia.
    rewrite list_lookup_fmap. unfold fresh_steps.
    rewrite list_lookup_imap, Hj. reflexivity.
Qed.

(** ** What an event does to the world *)

Lemma step_timeout P n w fc i q retry f p :
  m_face w = Some fc ->
  pit fc !! n = Some (mkPending i (BindOnData q) (BindOnTimeout retry f p)) ->
  step P (TimesOut n) w =
  Some (Normal
    (if 0 <? retry then
       mkWorld (Some (mkFace (delete n (pit fc)
                  ++ [mkPending i (BindOnData p) (BindOnTimeout (retry - 1) f p)])))
               (heap w)
               (log w ++ [EvExpressInterest i (BindOnData p)
                            (BindOnTimeout (retry - 1) f p)])
     else
       mkWorld (Some (mkFace (delete n (pit fc)))) (heap w)
               (log w ++ [EvOnFailure f]))).
Proof.
  intros Hf Hn. unfold step. rewrite Hf. simpl. rewrite Hn. simpl.
  unfold onTimeout, remove_pending, expressInterest, record. rewrite Hf. simpl.
  destruct (0 <? retry); reflexivity.
Qed.

(** A count that is zero or negative leaves no retry: the timeout invokes
    the failure closure at once. *)
Lemma exhausted_timeout_fails P n w fc i q retry f p :
  m_face w = Some fc ->
  pit fc !! n = Some (mkPending i (BindOnData q) (BindOnTimeout retry f p)) ->
  retry <= 0 ->
  step P (TimesOut n) w =
  Some (Normal (mkWorld (Some (mkFace (delete n (pit fc)))) (heap w)
                  (log w ++ [EvOnFailure f]))).
Proof.
  intros Hf Hn Hle. rewrite (step_timeout P n w fc i q retry f p Hf Hn).
  destruct (0 <? retry) eqn:E; [apply Z.ltb_lt in E; lia|]. reflexivity.
Qed.

Lemma step_data P n d w fc pi r :
  m_face w = Some fc ->
  pit fc !! n = Some pi ->
  heap w !! request_of pi = Some r ->
  step P (DataArrives n d) w =
  Some (validate P (SData d) (m_onValidated r) (m_onDataValidated r)
          (m_stepCount r) (remove_pending n w)).
Proof.
  intros Hf Hn Hr. unfold step. rewrite Hf. simpl. rewrite Hn. simpl.
  destruct pi as [i [q] ot]. unfold request_of in Hr. simpl in *.
  unfold onData. simpl. rewrite Hr. reflexivity.
Qed.

Lemma step_inv P ev w out :
  step P ev w = Some out ->
  exists fc n i q retry f p,
    m_face w = Some fc /\
    pit fc !! n = Some (mkPending i (BindOnData q) (BindOnTimeout retry f p)) /\
    ((ev = TimesOut n /\
      out = onTimeout i retry f p (remove_pending n w)) \/
     (exists d r, ev = DataArrives n d /\ heap w !! q = Some r /\
        out = validate P (SData d) (m_onValidated r) (m_onDataValidated r)
                (m_stepCount r) (remove_pending n w))).
Proof.
  unfold step. destruct (m_face w) as [fc|] eqn:Hf; simpl; [|discriminate].
  destruct ev as [n d|n]; destruct (pit fc !! n) as [[i [q] [retry f p]]|] eqn:Hn;
    simpl; try discriminate; intros H.
  - unfold onData in H. simpl in H.
    destruct (heap w !! q) as [r|] eqn:Hr; simpl in H; [|discriminate].
    injection H as <-. exists fc, n, i, q, retry, f, p.
    split; [reflexivity|]. split; [exact Hn|]. right. exists d, r. auto.
  - injection H as <-. exists fc, n, i, q, retry, f, p.
    split; [reflexivity|]. split; [exact Hn|]. left. auto.
Qed.

(** Invariants of a run: what every enabled event preserves holds at the
    end, and no callback throws on the way. *)
Lemma run_invariant P (I : World -> Prop) (Q : FaceEvent -> Prop) :
  (forall ev w out, Q ev -> I w -> step P ev w = Some out ->
     exists w', out = Normal w' /\ I w') ->
  forall evs w out, Forall Q evs -> I w -> run P evs w = Some out ->
     exists w', out = Normal w' /\ I w'.
Proof.
  intros Hstep evs. induction evs as [|ev evs IH]; intros w out HQ HI Hrun.
  - simpl in Hrun. injection Hrun as <-. eauto.
  - simpl in Hrun. inversion HQ as [|? ? Hq HQ']; subst.
    destruct (step P ev w) as [o|] eqn:Hs; [|discriminate].
    destruct (Hstep _ _ _ Hq HI Hs) as (w' & -> & HI').
    eapply IH; eauto.
Qed.

(** ** Counting failures against requests *)

Lemma failures_app l1 l2 : failures (l1 ++ l2) = failures l1 ++ failures l2.
Proof. apply omap_app. Qed.

Lemma issued_app l1 l2 : issued (l1 ++ l2) = issued l1 ++ issued l2.
Proof. apply bind_app. Qed.

Lemma failures_express ps : failures (map express_event ps) = [].
Proof. induction ps; simpl; auto. Qed.

Lemma issued_express ps : issued (map express_event ps) = [].
Proof. induction ps; simpl; auto. Qed.

Lemma failures_policy_events res s n v k :
  failures (policy_events res s n v k) = [].
Proof.
  unfold policy_events. simpl.
  induction (direct_calls res); simpl; auto.
Qed.

Lemma issued_policy_events res s n v k :
  issued (policy_events res s n v k) =
  replicate (length (nextSteps res)) (bindFailure k s).
Proof.
  unfold policy_events, issued. simpl.
  induction (direct_calls res) as [|c cs IH]; simpl.
  - apply app_nil_r.
  - exact IH.
Qed.

Lemma closures_pending f steps :
  map closure_of (map (pending_of f) steps) = replicate (length steps) f.
Proof. induction steps; simpl; f_equal; auto. Qed.

Lemma length_fresh_steps h rs : length (fresh_steps h rs) = length rs.
Proof. apply length_imap. Qed.

(** C1 fails where two sibling requests both exhaust their retries: the
    failure continuation they share fires twice. *)
Lemma sibling_failures_fire_twice :
  exists w1 out,
    validate Sample.twoSiblings (SData Sample.D)
      "onValidated" "onValidationFailed" 0 fresh = Normal w1 /\
    run Sample.twoSiblings [TimesOut 0; TimesOut 0] w1 = Some out /\
    ~ invoked_at_most_once
        (bindFailure "onValidationFailed" (SData Sample.D))
        (log (world_of out)).
Proof.
  eexists. eexists. split; [vm_compute; reflexivity|].
  split; [vm_compute; reflexivity|].
  intros H. specialize (H 3%nat 4%nat eq_refl eq_refl). discriminate H.
Qed.

(** ** The retry state machine of one request *)

Lemma run_app P evs1 evs2 w w' :
  run P evs1 w = Some (Normal w') ->
  run P (evs1 ++ evs2) w = run P evs2 w'.
Proof.
  revert w. induction evs1 as [|ev evs1 IH]; intros w Hrun; simpl in *.
  - injection Hrun as ->. reflexivity.
  - destruct (step P ev w) as [[w1|msg w1]|]; try discriminate. auto.
Qed.

Lemma run_single P ev w : run P [ev] w = step P ev w.
Proof. simpl. destruct (step P ev w) as [[w1|msg w1]|]; reflexivity. Qed.

(** A timeout of the last entry of the table while retries remain. *)
Lemma timeout_reissues P w l i f p R j :
  m_face w = Some (mkFace (l ++ [reissue i f p R j])) ->
  Z.of_nat j < R ->
  step P (TimesOut (length l)) w =
  Some (Normal (mkWorld (Some (mkFace (l ++ [reissue i f p R (S j)])))
                  (heap w)
                  (log w ++ [express_event (reissue i f p R (S j))]))).
Proof.
  intros Hf Hlt.
  rewrite (step_timeout P (length l) w _ i p (R - Z.of_nat j) f p Hf).
  2:{ simpl. apply list_lookup_middle. reflexivity. }
  simpl. rewrite delete_middle, app_nil_r.
  destruct (0 <? R - Z.of_nat j) eqn:E; [|apply Z.ltb_ge in E; lia].
  unfold reissue, express_event. simpl.
  replace (R - Z.of_nat j - 1) with (R - Z.of_nat (S j)) by lia. reflexivity.
Qed.

(** A timeout of the last entry of the table with no retry left. *)
Lemma timeout_fails P w l i f p R j :
  m_face w = Some (mkFace (l ++ [reissue i f p R j])) ->
  R <= Z.of_nat j ->
  step P (TimesOut (length l)) w =
  Some (Normal (mkWorld (Some (mkFace l)) (heap w) (log w ++ [EvOnFailure f]))).
Proof.
  intros Hf Hle.
  rewrite (step_timeout P (length l) w _ i p (R - Z.of_nat j) f p Hf).
  2:{ simpl. apply list_lookup_middle. reflexivity. }
  simpl. rewrite delete_middle, app_nil_r.
  destruct (0 <? R - Z.of_nat j) eqn:E; [apply Z.ltb_lt in E; lia|]. reflexivity.
Qed.

(** k more timeouts of a fetch that has been reissued j0 times. *)
Lemma timeouts_reissue P l i f p R k : forall w j0,
  m_face w = Some (mkFace (l ++ [reissue i f p R j0])) ->
  Z.of_nat (j0 + k) <= R ->
  run P (replicate k (TimesOut (length l))) w =
  Some (Normal (mkWorld (Some (mkFace (l ++ [reissue i f p R (j0 + k)])))
                  (heap w)
                  (log w ++ map (fun j => express_event (reissue i f p R j))
                                (seq (S j0) k)))).
Proof.
  induction k as [|k IH]; intros w j0 Hf Hle.
  - simpl. rewrite Nat.add_0_r, app_nil_r, <- Hf. destruct w; reflexivity.
  - rewrite replicate_S_end.
    rewrite (run_app P _ _ w _ (IH w j0 Hf ltac:(lia))).
    rewrite run_single.
    rewrite (timeout_reissues P _ l i f p R (j0 + k)); [|reflexivity|lia].
    cbn [heap log]. rewrite seq_S, map_app, <- app_assoc. simpl.
    replace (j0 + S k)%nat with (S (j0 + k)) by lia. reflexivity.
Qed.

Lemma fetches_for_app p l1 l2 :
  fetches_for p (l1 ++ l2) = fetches_for p l1 ++ fetches_for p l2.
Proof. apply filter_app. Qed.

Lemma fetches_for_policy_events p res s n v k :
  fetches_for p (policy_events res s n v k) = [].
Proof.
  unfold policy_events, fetches_for. rewrite filter_cons_False by (simpl; auto).
  induction (direct_calls res) as [|c cs IH]; [reflexivity|].
  simpl. rewrite filter_cons_False by (simpl; auto). exact IH.
Qed.

Lemma fetches_issued_policy_events res s n v k :
  fetches_issued (policy_events res s n v k) = [].
Proof.
  unfold policy_events, fetches_issued.
  rewrite filter_cons_False by (simpl; auto).
  induction (direct_calls res) as [|c cs IH]; [reflexivity|].
  simpl. rewrite filter_cons_False by (simpl; auto). exact IH.
Qed.

(** The fetches validate issues are for new requests only. *)
Lemma fetches_for_fresh p f h rs :
  (p < length h)%nat ->
  fetches_for p (map express_event (map (pending_of f) (fresh_steps h rs))) = [].
Proof.
  intros Hp.
  assert (H : Forall (fun it => (length h <= it.1)%nat) (fresh_steps h rs)).
  { apply Forall_forall. intros it. apply fresh_steps_ptr. }
  induction H as [|it its Hit _ IH]; [reflexivity|].
  simpl. unfold fetches_for in *. rewrite filter_cons_False; [exact IH|].
  destruct it as [q rq]. simpl in *. rewrite bool_decide_eq_true. lia.
Qed.

(** C2: a request issued with retry count R >= 0 (its pending interest is
    the one validate registers) is reissued on each of its first R
    timeouts, with the same interest, the same onData binding, the same
    failure closure and request in the onTimeout binding, and the retry
    argument one lower each time; the (R+1)-th timeout invokes the failure
    closure and leaves no fetch for the request.  A data arrival on the
    fetch issues no fetch for the request, whatever the policy decides. *)
Theorem retry_state_machine P w before after f p r d :
  m_face w = Some (mkFace (before ++ pending_of f (p, r) :: after)) ->
  heap w !! p = Some r ->
  0 <= m_retry r ->
  let len := (length before + length after + 1)%nat in
  let fetch j := reissue (m_interest r) f p (m_retry r) j in
  (forall k, (1 <= k)%nat -> Z.of_nat k <= m_retry r ->
     run P (timeouts (length before) len k) w =
     Some (Normal (mkWorld (Some (mkFace (before ++ after ++ [fetch k])))
                     (heap w)
                     (log w ++ map (fun j => express_event (fetch j)) (seq 1 k)))))
  /\ run P (timeouts (length before) len (S (Z.to_nat (m_retry r)))) w =
     Some (Normal (mkWorld (Some (mkFace (before ++ after)))
                     (heap w)
                     (log w ++ map (fun j => express_event (fetch j))
                                   (seq 1 (Z.to_nat (m_retry r)))
                            ++ [EvOnFailure f])))
  /\ (exists out, step P (DataArrives (length before) d) w = Some out /\
        fetches_for p (log (world_of out)) = fetches_for p (log w)).
Proof.
  intros Hf Hp HR len fetch.
  set (R := m_retry r) in *. set (i := m_interest r) in *.
  assert (Hlen : (len - 1)%nat = length (before ++ after)).
  { unfold len. rewrite length_app. lia. }
  assert (Hstart : pending_of f (p, r) = fetch 0%nat).
  { unfold pending_of, fetch, reissue. simpl. fold R i. f_equal. f_equal. lia. }
  (* the first timeout, when a retry remains *)
  assert (Hfirst : 0 < R ->
    step P (TimesOut (length before)) w =
    Some (Normal (mkWorld (Some (mkFace ((before ++ after) ++ [fetch 1%nat])))
                    (heap w) (log w ++ [express_event (fetch 1%nat)])))).
  { intros Hpos.
    rewrite (step_timeout P (length before) w _ i p R f p Hf).
    2:{ simpl. apply list_lookup_middle. reflexivity. }
    simpl. rewrite delete_middle.
    destruct (0 <? R) eqn:E; [|apply Z.ltb_ge in E; lia]. reflexivity. }
  assert (Hmany : forall k, (1 <= k)%nat -> Z.of_nat k <= R ->
     run P (timeouts (length before) len k) w =
     Some (Normal (mkWorld (Some (mkFace (before ++ after ++ [fetch k])))
                     (heap w)
                     (log w ++ map (fun j => express_event (fetch j)) (seq 1 k))))).
  { intros k Hk HkR. destruct k as [|k]; [lia|].
    unfold timeouts. rewrite Hlen.
    change (TimesOut (length before) :: ?l) with ([TimesOut (length before)] ++ l).
    rewrite (run_app P _ _ w _ ltac:(rewrite run_single; apply Hfirst; lia)).
    rewrite (timeouts_reissue P (before ++ after) i f p R k _ 1%nat);
      [|reflexivity|lia].
    cbn [heap log]. rewrite <- !app_assoc. reflexivity. }
  split; [exact Hmany|]. split.
  - destruct (Z.to_nat R) as [|k] eqn:Ek.
    + (* R = 0: the first timeout fails *)
      unfold timeouts. simpl replicate. rewrite run_single.
      rewrite (step_timeout P (length before) w _ i p R f p Hf).
      2:{ simpl. apply list_lookup_middle. reflexivity. }
      simpl. rewrite delete_middle.
      destruct (0 <? R) eqn:E; [apply Z.ltb_lt in E; lia|]. reflexivity.
    + change (timeouts (length before) len (S (S k)))
        with (TimesOut (length before) :: replicate (S k) (TimesOut (len - 1)%nat)).
      rewrite replicate_S_end, app_comm_cons.
      rewrite (run_app P _ _ w _ (Hmany (S k) ltac:(lia) ltac:(lia))).
      rewrite run_single, Hlen, app_assoc.
      rewrite (timeout_fails P _ (before ++ after) i f p R (S k));
        [|reflexivity|lia].
      cbn [heap log]. rewrite <- app_assoc. reflexivity.
  - eexists. split.
    + apply (step_data P (length before) d w _ (pending_of f (p, r)) r Hf).
      * simpl. apply list_lookup_middle. reflexivity.
      * exact Hp.
    + rewrite (validate_with_face P _ _ _ _ (remove_pending (length before) w)
                 (mkFace (delete (length before)
                    (before ++ pending_of f (p, r) :: after)))).
      2:{ unfold remove_pending. rewrite Hf. reflexivity. }
      cbn [world_of log remove_pending heap].
      rewrite !fetches_for_app, fetches_for_policy_events.
      rewrite fetches_for_fresh by (eapply lookup_lt_Some; exact Hp).
      rewrite !app_nil_r. reflexivity.
Qed.

Lemma retry_state_machine_witness :
  exists w',
    run Sample.chain [TimesOut 0; TimesOut 0; TimesOut 0]
      (world_of (validate Sample.chain (SData Sample.D)
                   "onValidated" "onValidationFailed" 0 fresh))
    = Some (Normal w') /\
    failures (log w') = [bindFailure "onValidationFailed" (SData Sample.D)] /\
    length (fetches_for 0%nat (log w')) = 3%nat.
Proof.
  destruct (retry_state_machine Sample.chain
              (world_of (validate Sample.chain (SData Sample.D)
                           "onValidated" "onValidationFailed" 0 fresh))
              [] [] (bindFailure "onValidationFailed" (SData Sample.D))
              0%nat (Sample.request Sample.interestA 2 1) Sample.certA
              eq_refl eq_refl ltac:(simpl; lia))
    as (_ & H & _).
  eexists. split; [exact H|]. split; vm_compute; reflexivity.
Defined.

(** ** Which closure a timeout invokes *)

(** C3, as stated, fails one level down: the request issued while
    validating the fetched certificate A fails through the continuation
    stored in A's request, applied to A, not to the top-level subject D. *)
Lemma nested_failure_bound_to_certificate :
  exists w1 out,
    validate Sample.chain (SData Sample.D)
      "onValidated" "onValidationFailed" 0 fresh = Normal w1 /\
    run Sample.chain [DataArrives 0 Sample.certA; TimesOut 0] w1 = Some out /\
    failures (log (world_of out)) =
      [bindFailure "onCertificateValidationFailed" (SData Sample.certA)] /\
    ~ (forall f, f ∈ failures (log (world_of out)) ->
                 of_subject f = SData Sample.D).
Proof.
  eexists. eexists. split; [vm_compute; reflexivity|].
  split; [vm_compute; reflexivity|].
  split; [vm_compute; reflexivity|].
  intros H.
  specialize (H (bindFailure "onCertificateValidationFailed" (SData Sample.certA))).
  cbn [world_of] in H.
  assert (Hin : bindFailure "onCertificateValidationFailed" (SData Sample.certA)
                ∈ [bindFailure "onCertificateValidationFailed" (SData Sample.certA)])
    by apply list_elem_of_here.
  specialize (H Hin). discriminate H.
Qed.

(** ** validate without a face, and with nothing to fetch *)

(** C5: when checkPolicy returns requests and no face is set, validate
    throws; up to the throw the log has gained the checkPolicy call and
    whatever the policy invoked itself, so no interest was expressed and no
    failure closure was invoked by the validator.  When checkPolicy returns
    no request, validate returns with the face untouched and the same
    additions to the log only. *)
Theorem validate_configuration_error P s v k n w :
  (m_face w = None -> nextSteps (P (log w) s n v k) <> [] ->
     validate P s v k n w =
     Throw "Face should be set prior to verify method to call"
       (mkWorld None (heap w ++ nextSteps (P (log w) s n v k))
                (log w ++ policy_events (P (log w) s n v k) s n v k))
     /\ failures (log w ++ policy_events (P (log w) s n v k) s n v k) = failures (log w)
     /\ fetches_issued (log w ++ policy_events (P (log w) s n v k) s n v k) = fetches_issued (log w))
  /\ (nextSteps (P (log w) s n v k) = [] ->
     validate P s v k n w =
     Normal (mkWorld (m_face w) (heap w) (log w ++ policy_events (P (log w) s n v k) s n v k))
     /\ failures (log w ++ policy_events (P (log w) s n v k) s n v k) = failures (log w)
     /\ fetches_issued (log w ++ policy_events (P (log w) s n v k) s n v k) = fetches_issued (log w)).
Proof.
  assert (Hlog : failures (log w ++ policy_events (P (log w) s n v k) s n v k) = failures (log w)
            /\ fetches_issued (log w ++ policy_events (P (log w) s n v k) s n v k)
               = fetches_issued (log w)).
  { split.
    - rewrite failures_app, failures_policy_events. apply app_nil_r.
    - unfold fetches_issued. rewrite filter_app.
      rewrite fetches_issued_policy_events. apply app_nil_r. }
  split.
  - intros Hf Hne. split; [|exact Hlog].
    unfold validate. rewrite run_checkPolicy_eq.
    destruct (fresh_steps (heap w) (nextSteps (P (log w) s n v k))) as [|it steps] eqn:E.
    + apply fresh_steps_nil in E. contradiction.
    + cbn [m_face]. rewrite Hf. reflexivity.
  - intros Hnil. split; [|exact Hlog].
    unfold validate. rewrite run_checkPolicy_eq. rewrite Hnil.
    simpl. rewrite app_nil_r. reflexivity.
Qed.

Lemma validate_configuration_error_witness :
  validate Sample.chain (SData Sample.D) "onValidated" "onValidationFailed" 0
    faceless =
  Throw "Face should be set prior to verify method to call"
    (mkWorld None [Sample.request Sample.interestA 2 1]
       [EvCheckPolicy (SData Sample.D) 0 "onValidated" "onValidationFailed"
          [Sample.request Sample.interestA 2 1]])
  /\ validate Sample.acceptAll (SData Sample.D) "onValidated"
       "onValidationFailed" 0 faceless =
     Normal (mkWorld None []
       [EvCheckPolicy (SData Sample.D) 0 "onValidated" "onValidationFailed" [];
        EvCallback "onValidated" (SData Sample.D)]).
Proof.
  split.
  - apply (proj1 (validate_configuration_error Sample.chain (SData Sample.D)
                    "onValidated" "onValidationFailed" 0 faceless)).
    + reflexivity.
    + discriminate.
  - apply (proj2 (validate_configuration_error Sample.acceptAll (SData Sample.D)
                    "onValidated" "onValidationFailed" 0 faceless)).
    reflexivity.
Defined.

(** ** Data arrival *)

(** C6: when data arrives for a pending interest, onData calls validate on
    the fetched object with the success continuation, the failure
    continuation and the step count stored in the request bound to that
    interest; the first thing that then happens is the checkPolicy call on
    the fetched object with exactly these arguments. *)
Theorem data_arrival_revalidates P n d w fc pi r :
  m_face w = Some fc ->
  pit fc !! n = Some pi ->
  heap w !! request_of pi = Some r ->
  step P (DataArrives n d) w =
    Some (validate P (SData d) (m_onValidated r) (m_onDataValidated r)
            (m_stepCount r) (remove_pending n w))
  /\ exists rest,
      log (world_of (validate P (SData d) (m_onValidated r)
                       (m_onDataValidated r) (m_stepCount r)
                       (remove_pending n w)))
      = log w ++ EvCheckPolicy (SData d) (m_stepCount r) (m_onValidated r)
                   (m_onDataValidated r)
                   (nextSteps (P (log w) (SData d) (m_stepCount r)
                                 (m_onValidated r) (m_onDataValidated r)))
                 :: rest.
Proof.
  intros Hf Hn Hr. split.
  - unfold step. rewrite Hf. simpl. rewrite Hn. simpl.
    destruct pi as [i [q] ot]. unfold request_of in Hr. simpl in *.
    unfold onData. simpl. rewrite Hr. reflexivity.
  - rewrite (validate_with_face P _ _ _ _ (remove_pending n w)
               (mkFace (delete n (pit fc)))).
    2:{ unfold remove_pending. rewrite Hf. reflexivity. }
    cbn [world_of log remove_pending]. unfold policy_events.
    eexists. rewrite <- app_comm_cons. reflexivity.
Qed.

Lemma data_arrival_revalidates_witness :
  step Sample.chain (DataArrives 0 Sample.certA)
    (world_of (validate Sample.chain (SData Sample.D)
                 "onValidated" "onValidationFailed" 0 fresh)) =
  Some (validate Sample.chain (SData Sample.certA)
          "onCertificateValidated" "onCertificateValidationFailed" 1
          (remove_pending 0
             (world_of (validate Sample.chain (SData Sample.D)
                          "onValidated" "onValidationFailed" 0 fresh)))).
Proof.
  apply (data_arrival_revalidates Sample.chain 0 Sample.certA
           (world_of (validate Sample.chain (SData Sample.D)
                        "onValidated" "onValidationFailed" 0 fresh))
           _ _ (Sample.request Sample.interestA 2 1) eq_refl eq_refl eq_refl).
Defined.

(** ** The store of requests *)

Lemma validate_keeps_requests P s v k n w p r :
  heap w !! p = Some r ->
  heap (world_of (validate P s v k n w)) !! p = Some r.
Proof.
  intros Hp. unfold validate. rewrite run_checkPolicy_eq.
  destruct (fresh_steps (heap w) (nextSteps (P (log w) s n v k))) as [|it steps].
  - simpl. apply lookup_app_l_Some, Hp.
  - cbn [m_face]. destruct (m_face w).
    + rewrite foldl_issue. simpl. apply lookup_app_l_Some, Hp.
    + simpl. apply lookup_app_l_Some, Hp.
Qed.

Lemma step_keeps_requests P ev w out p r :
  step P ev w = Some out ->
  heap w !! p = Some r -> heap (world_of out) !! p = Some r.
Proof.
  intros Hs Hp.
  destruct (step_inv _ _ _ _ Hs)
    as (fc & n & i & q & retry & f & p' & Hf & Hn & Hcase).
  destruct Hcase as [[-> ->] | (d & r' & -> & Hr & ->)].
  - unfold onTimeout. destruct (0 <? retry); simpl; exact Hp.
  - apply validate_keeps_requests. exact Hp.
Qed.

(** C10: no operation of the validator writes to a ValidationRequest.
    Whatever the events, a request in the store is found unchanged, under
    the same pointer, at the end of the run; validate only adds the
    requests checkPolicy returned; and a timeout with retries left leaves
    the store as it is while the fetch it registers carries retry - 1 in
    its onTimeout binding and the same pointer in both bindings, so the
    m_retry of the record still holds the count it was created with. *)
Theorem requests_never_mutated P :
  (forall evs w out p r,
     run P evs w = Some out ->
     heap w !! p = Some r -> heap (world_of out) !! p = Some r)
  /\ (forall s v k n w,
       heap (world_of (validate P s v k n w))
       = heap w ++ nextSteps (P (log w) s n v k))
  /\ (forall n w fc i q retry f p,
       m_face w = Some fc ->
       pit fc !! n = Some (mkPending i (BindOnData q) (BindOnTimeout retry f p)) ->
       0 < retry ->
       exists w' fc',
         step P (TimesOut n) w = Some (Normal w') /\
         heap w' = heap w /\
         m_face w' = Some fc' /\
         last (pit fc')
         = Some (mkPending i (BindOnData p) (BindOnTimeout (retry - 1) f p))).
Proof.
  split; [|split].
  - intros evs. induction evs as [|ev evs IH]; intros w out p r Hrun Hp.
    + simpl in Hrun. injection Hrun as <-. exact Hp.
    + simpl in Hrun. destruct (step P ev w) as [o|] eqn:Hs; [|discriminate].
      pose proof (step_keeps_requests P ev w o p r Hs Hp) as Hp'.
      destruct o as [w'|msg w'].
      * eapply IH; eauto.
      * injection Hrun as <-. exact Hp'.
  - intros s v k n w. unfold validate. rewrite run_checkPolicy_eq.
    destruct (fresh_steps (heap w) (nextSteps (P (log w) s n v k))) as [|it steps].
    + reflexivity.
    + cbn [m_face]. destruct (m_face w); [rewrite foldl_issue|]; reflexivity.
  - intros n w fc i q retry f p Hf Hn Hpos.
    rewrite (step_timeout P n w fc i q retry f p Hf Hn).
    destruct (0 <? retry) eqn:E; [|apply Z.ltb_ge in E; lia].
    eexists. eexists. split; [reflexivity|]. split; [reflexivity|].
    split; [reflexivity|]. simpl. apply last_snoc.
Qed.

Lemma requests_never_mutated_witness :
  heap (world_of (default (Normal fresh)
          (run Sample.chain [TimesOut 0; DataArrives 0 Sample.certA; TimesOut 0]
             (world_of (validate Sample.chain (SData Sample.D)
                          "onValidated" "onValidationFailed" 0 fresh)))))
    !! 0%nat
  = Some (Sample.request Sample.interestA 2 1).
Proof.
  apply (proj1 (requests_never_mutated Sample.chain)
           [TimesOut 0; DataArrives 0 Sample.certA; TimesOut 0]
           (world_of (validate Sample.chain (SData Sample.D)
                        "onValidated" "onValidationFailed" 0 fresh))
           _ 0%nat (Sample.request Sample.interestA 2 1) eq_refl eq_refl).
Defined.

(** ** Signature verification: exceptions, dispatch, signed range *)

Ltac run_M :=
  unfold try_catch, bind, call, ret, undefined, from_rbegin; cbn [fst snd].

Lemma quiet_ret {A} (a : A) : quiet (ret a).
Proof. intros l. reflexivity. Qed.

Lemma quiet_undefined {A} : quiet (@undefined A).
Proof. intros l. reflexivity. Qed.

Lemma quiet_call {A} op (r : Result A) : is_crypto op = false -> quiet (call op r).
Proof.
  intros Hop l. unfold call, crypto_ops. simpl.
  rewrite filter_app, filter_cons_False by (rewrite Hop; discriminate).
  apply app_nil_r.
Qed.

Lemma quiet_bind {A B} (m : M A) (k : A -> M B) :
  quiet m -> (forall a, quiet (k a)) -> quiet (bind m k).
Proof.
  intros Hm Hk l. unfold bind. specialize (Hm l).
  destruct (m l) as [[a| |] l1]; simpl in *; try exact Hm.
  rewrite Hk. exact Hm.
Qed.

Lemma quiet_from_rbegin k bs : quiet (from_rbegin k bs).
Proof.
  unfold from_rbegin. destruct (rev bs !! k);
    [apply quiet_ret | apply quiet_undefined].
Qed.

(** Decoding the signature of an interest makes no cryptographic call. *)
Lemma interest_signature_quiet L name : quiet (interest_signature L name).
Proof.
  unfold interest_signature, component_block.
  repeat first
    [ apply quiet_bind; [|intros ?]
    | apply quiet_call; reflexivity
    | apply quiet_from_rbegin
    | apply quiet_ret
    | match goal with |- quiet (if ?c then _ else _) => destruct c end ].
Qed.

Lemma interest_signature_no_crypto L name l res l' :
  interest_signature L name l = (res, l') -> crypto_ops l' = crypto_ops l.
Proof.
  intros H. pose proof (interest_signature_quiet L name l) as Hq.
  rewrite H in Hq. exact Hq.
Qed.

(** C7: for a name of fewer than three components verifySignature returns
    false and has made no call at all: the name is not encoded, nothing is
    parsed, no signature is built. *)
Theorem short_name_rejected L interest key l :
  Z.of_nat (length (getName interest)) < 3 ->
  verifySignature_Interest L interest key l = (Returns false, l).
Proof.
  intros Hlt. unfold verifySignature_Interest.
  destruct (Z.of_nat (length (getName interest)) <? 3) eqn:E.
  - reflexivity.
  - apply Z.ltb_ge in E. lia.
Qed.

Lemma short_name_rejected_witness :
  verifySignature_Interest (Sample.lib 1) Sample.shortInterest Sample.goodKey []
  = (Returns false, []).
Proof.
  apply (short_name_rejected (Sample.lib 1) Sample.shortInterest
           Sample.goodKey []).
  simpl. lia.
Defined.

(** C8: a signature of any type other than Sha256WithRsa makes
    verifySignature return false.  For a Data packet and for a buffer no
    call at all is made; for an interest whose last two components decode
    to such a signature, the calls made are those of the decoding, none of
    them cryptographic. *)
Theorem unsupported_kind_rejected L key l :
  (forall data,
     getType (getSignature data) <> Sha256WithRsa L ->
     verifySignature_Data L data key l = (Returns false, l))
  /\ (forall buf sig,
     getType sig <> Sha256WithRsa L ->
     verifySignature_Buffer L buf sig key l = (Returns false, l))
  /\ (forall interest nameBlock sig l',
     3 <= Z.of_nat (length (getName interest)) ->
     interest_signature L (getName interest) l = (Returns (nameBlock, sig), l') ->
     getType sig <> Sha256WithRsa L ->
     verifySignature_Interest L interest key l = (Returns false, l')
     /\ crypto_ops l' = crypto_ops l).
Proof.
  split; [|split].
  - intros data Hne. unfold verifySignature_Data. run_M.
    destruct (getType (getSignature data) =? Sha256WithRsa L) eqn:E.
    + apply Z.eqb_eq in E. contradiction.
    + reflexivity.
  - intros buf sig Hne. unfold verifySignature_Buffer. run_M.
    destruct (getType sig =? Sha256WithRsa L) eqn:E.
    + apply Z.eqb_eq in E. contradiction.
    + reflexivity.
  - intros interest nameBlock sig l' Hsz Hdec Hne. split.
    + unfold verifySignature_Interest.
      destruct (Z.of_nat (length (getName interest)) <? 3) eqn:E;
        [apply Z.ltb_lt in E; lia|].
      unfold try_catch, bind at 1. rewrite Hdec. cbn [fst snd].
      unfold interest_switch.
      destruct (getType sig =? Sha256WithRsa L) eqn:E';
        [apply Z.eqb_eq in E'; contradiction|]. reflexivity.
    + eapply interest_signature_no_crypto. exact Hdec.
Qed.

Lemma unsupported_kind_rejected_witness :
  verifySignature_Data (Sample.lib 1) Sample.unsignedD Sample.goodKey []
    = (Returns false, [])
  /\ verifySignature_Buffer (Sample.lib 1) [Byte.x2a] Sample.otherSignature
       Sample.goodKey [] = (Returns false, [])
  /\ (verifySignature_Interest (Sample.lib 0) Sample.signedInterest
        Sample.goodKey []).1 = Returns false.
Proof.
  destruct (unsupported_kind_rejected (Sample.lib 1) Sample.goodKey [])
    as (HD & HB & _).
  destruct (unsupported_kind_rejected (Sample.lib 0) Sample.goodKey [])
    as (_ & _ & HI).
  split; [apply HD; vm_compute; discriminate|].
  split; [apply HB; vm_compute; discriminate|].
  destruct (HI Sample.signedInterest Sample.encodedName
              (mkSignature 0 Sample.sigInfoBlock Sample.sigValueBlock) _
              ltac:(vm_compute; discriminate) eq_refl
              ltac:(vm_compute; discriminate)) as [-> _].
  reflexivity.
Defined.

(** The handlers of the three entry points differ: an exception of the
    encoder that is not Signature::Error leaves the Data path, while the
    interest path turns a Block::Error of its encoder into false. *)
Lemma encoder_error_escapes_data_path L data key l s pk e :
  getType (getSignature data) = Sha256WithRsa L ->
  SignatureSha256WithRsa_ctor L (getSignature data) = Returns s ->
  RSA_Load L (get key) = Returns pk ->
  Data_wireEncode L data = Throws e ->
  catches_Signature e = false ->
  (verifySignature_Data L data key l).1 = Throws e.
Proof.
  intros Hty Hctor Hload Henc He. unfold verifySignature_Data.
  rewrite Hty, Z.eqb_refl. unfold verifySignature_Data_rsa. run_M.
  rewrite Hctor, Hload, Henc. cbn beta iota delta [fst snd].
  rewrite He. reflexivity.
Qed.

Lemma block_error_caught_on_interest_path L interest key l :
  3 <= Z.of_nat (length (getName interest)) ->
  Name_wireEncode L (getName interest) = Throws Block_Error ->
  (verifySignature_Interest L interest key l).1 = Returns false.
Proof.
  intros Hsz Henc. unfold verifySignature_Interest.
  destruct (Z.of_nat (length (getName interest)) <? 3) eqn:E;
    [apply Z.ltb_lt in E; lia|].
  unfold interest_signature. run_M. rewrite Henc. reflexivity.
Qed.

(** C4, where the code departs from it: with a Sha256WithRsa signature, an
    exception of the key loader (CryptoPP's BERDecodeErr on bytes that are
    not a DER-encoded key) is none of the exceptions the handlers name, so
    it leaves verifySignature, on the Data path, the buffer path and the
    interest path alike. *)
Theorem malformed_key_escapes L key l :
  RSA_Load L (get key) = Throws CryptoPP_Exception ->
  (forall data s,
     getType (getSignature data) = Sha256WithRsa L ->
     SignatureSha256WithRsa_ctor L (getSignature data) = Returns s ->
     (verifySignature_Data L data key l).1 = Throws CryptoPP_Exception)
  /\ (forall buf sig s,
     getType sig = Sha256WithRsa L ->
     SignatureSha256WithRsa_ctor L sig = Returns s ->
     (verifySignature_Buffer L buf sig key l).1 = Throws CryptoPP_Exception)
  /\ (forall interest nameBlock sig s last l',
     3 <= Z.of_nat (length (getName interest)) ->
     interest_signature L (getName interest) l = (Returns (nameBlock, sig), l') ->
     getType sig = Sha256WithRsa L ->
     SignatureSha256WithRsa_ctor L sig = Returns s ->
     rev (getAll nameBlock) !! 0%nat = Some last ->
     (verifySignature_Interest L interest key l).1 = Throws CryptoPP_Exception).
Proof.
  intros Hload. split; [|split].
  - intros data s Hty Hctor. unfold verifySignature_Data.
    rewrite Hty, Z.eqb_refl. unfold verifySignature_Data_rsa. run_M.
    rewrite Hctor, Hload. reflexivity.
  - intros buf sig s Hty Hctor. unfold verifySignature_Buffer.
    rewrite Hty, Z.eqb_refl.
    unfold verifySignature_Buffer_rsa, rsa_verify. run_M.
    rewrite Hctor, Hload. reflexivity.
  - intros interest nameBlock sig s last l' Hsz Hdec Hty Hctor Hlast.
    unfold verifySignature_Interest.
    destruct (Z.of_nat (length (getName interest)) <? 3) eqn:E;
      [apply Z.ltb_lt in E; lia|].
    unfold try_catch, bind at 1. rewrite Hdec. cbn [fst snd].
    unfold interest_switch. rewrite Hty, Z.eqb_refl.
    unfold verifySignature_raw_rsa, rsa_verify. run_M.
    rewrite Hctor, Hlast, Hload. reflexivity.
Qed.

Lemma malformed_key_escapes_witness :
  (verifySignature_Data (Sample.lib 1) Sample.D Sample.emptyKey []).1
  = Throws CryptoPP_Exception.
Proof.
  apply (proj1 (malformed_key_escapes (Sample.lib 1) Sample.emptyKey []
                  eq_refl) Sample.D Sample.rsaSignature eq_refl eq_refl).
Defined.

(** ** The signed byte range *)

Lemma handed_app l1 l2 : handed (l1 ++ l2) = handed l1 ++ handed l2.
Proof. apply omap_app. Qed.

Lemma byte_range_sub (v : Buffer) (a b : nat) :
  Z.of_nat b <= Z.of_nat a < 2 ^ 64 ->
  byte_range v (size_t_sub (Z.of_nat a) (Z.of_nat b)) = take (a - b)%nat v.
Proof.
  intros H. unfold byte_range, size_t_sub.
  rewrite Z.mod_small by lia. f_equal. lia.
Qed.

(** C9, as stated, on the sample Data packet and the sample signed
    interest: the range handed to VerifyMessage starts after the outer
    type and length octets, so it is not the whole encoding with the
    signature value taken off its end, whether "signature-value bytes" is
    read as the whole element or as its value octets. *)
Lemma signed_range_is_not_whole_encoding :
  handed (verifySignature_Data (Sample.lib 1) Sample.D Sample.goodKey []).2
    = [take 13 (value Sample.encodedD)]
  /\ handed (verifySignature_Data (Sample.lib 1) Sample.D Sample.goodKey []).2
     <> [spec_signed_range Sample.encodedD (getValue (getSignature Sample.D))]
  /\ handed (verifySignature_Data (Sample.lib 1) Sample.D Sample.goodKey []).2
     <> [spec_signed_range_octets Sample.encodedD
           (getValue (getSignature Sample.D))]
  /\ handed (verifySignature_Interest (Sample.lib 1) Sample.signedInterest
               Sample.goodKey []).2
     = [take 10 (value Sample.encodedName)]
  /\ handed (verifySignature_Interest (Sample.lib 1) Sample.signedInterest
               Sample.goodKey []).2
     <> [spec_signed_range Sample.encodedName Sample.compValue]
  /\ handed (verifySignature_Interest (Sample.lib 1) Sample.signedInterest
               Sample.goodKey []).2
     <> [spec_signed_range_octets Sample.encodedName Sample.compValue].
Proof.
  repeat split; try (vm_compute; reflexivity); vm_compute; discriminate.
Qed.

(** C9 (amended): in the RsaSha256 check the message handed to
    VerifyMessage is, for a Data packet, the value part of the encoding
    (wireEncode().value(): the encoding without its outer type and length
    octets) without its last size() bytes of the SignatureValue element;
    for an interest of at least three components, the value part of the
    encoded name without the last size() bytes of its final element. *)
Theorem signed_range_is_value_prefix L key l pk :
  RSA_Load L (get key) = Returns pk ->
  (forall data s blk,
     getType (getSignature data) = Sha256WithRsa L ->
     SignatureSha256WithRsa_ctor L (getSignature data) = Returns s ->
     Data_wireEncode L data = Returns blk ->
     size (getValue (getSignature data)) <= value_size blk < 2 ^ 64 ->
     handed (verifySignature_Data L data key l).2 =
     handed l ++
       [take (length (value blk)
              - length (wire (getValue (getSignature data))))%nat (value blk)])
  /\ (forall interest nameBlock sig s last l',
     3 <= Z.of_nat (length (getName interest)) ->
     interest_signature L (getName interest) l = (Returns (nameBlock, sig), l') ->
     getType sig = Sha256WithRsa L ->
     SignatureSha256WithRsa_ctor L sig = Returns s ->
     rev (getAll nameBlock) !! 0%nat = Some last ->
     size last <= value_size nameBlock < 2 ^ 64 ->
     handed (verifySignature_Interest L interest key l).2 =
     handed l' ++
       [take (length (value nameBlock) - length (wire last))%nat
             (value nameBlock)]).
Proof.
  intros Hload. split.
  - intros data s blk Hty Hctor Henc Hsz. unfold verifySignature_Data.
    rewrite Hty, Z.eqb_refl. unfold verifySignature_Data_rsa. run_M.
    rewrite Hctor, Hload, Henc. cbn beta iota delta [fst snd].
    rewrite !handed_app. simpl. rewrite !app_nil_r.
    unfold size, value_size in *. rewrite byte_range_sub by exact Hsz.
    reflexivity.
  - intros interest nameBlock sig s last l' Hlen Hdec Hty Hctor Hlast Hsz.
    unfold verifySignature_Interest.
    destruct (Z.of_nat (length (getName interest)) <? 3) eqn:E;
      [apply Z.ltb_lt in E; lia|].
    unfold try_catch, bind at 1. rewrite Hdec. cbn [fst snd].
    unfold interest_switch. rewrite Hty, Z.eqb_refl.
    unfold verifySignature_raw_rsa, rsa_verify. run_M.
    rewrite Hctor, Hlast, Hload. unfold ret. cbn beta iota delta [fst snd].
    rewrite !handed_app. simpl. rewrite !app_nil_r.
    unfold size, value_size in *. rewrite byte_range_sub by exact Hsz.
    reflexivity.
Qed.

Lemma signed_range_is_value_prefix_witness :
  handed (verifySignature_Data (Sample.lib 1) Sample.D Sample.goodKey []).2
  = [take (length (value Sample.encodedD)
           - length (wire (getValue (getSignature Sample.D))))%nat
          (value Sample.encodedD)]
  /\ handed (verifySignature_Interest (Sample.lib 1) Sample.signedInterest
               Sample.goodKey []).2
     = [take (length (value Sample.encodedName)
              - length (wire Sample.compValue))%nat
             (value Sample.encodedName)].
Proof.
  destruct (signed_range_is_value_prefix (Sample.lib 1) Sample.goodKey []
              (mkRSA 3233 17) eq_refl) as [HD HI].
  split.
  - exact (HD Sample.D Sample.rsaSignature Sample.encodedD
              eq_refl eq_refl eq_refl
              ltac:(vm_compute; split; [discriminate|reflexivity])).
  - exact (HI Sample.signedInterest Sample.encodedName
              (mkSignature 1 Sample.sigInfoBlock Sample.sigValueBlock)
              (mkSignature 1 Sample.sigInfoBlock Sample.sigValueBlock)
              Sample.compValue _ ltac:(vm_compute; discriminate)
              eq_refl eq_refl eq_refl eq_refl
              ltac:(vm_compute; split; [discriminate|reflexivity])).
Defined.

(** * Further properties of the orchestrator *)

Lemma fetches_issued_express ps :
  fetches_issued (map express_event ps) = map express_event ps.
Proof.
  unfold fetches_issued. induction ps as [|e ps IH]; [reflexivity|].
  simpl. rewrite filter_cons_True by reflexivity. f_equal. exact IH.
Qed.

(** X1: with a face set validate never throws; it expresses exactly one
    interest per request checkPolicy returned, in the order returned, the
    j-th for the j-th request with that request's m_interest and m_retry,
    all with the one closure bind(onValidationFailed, subject); the table
    of pending interests grows by these entries and nothing else. *)
Theorem validate_issues_in_order P s v k n w fc :
  m_face w = Some fc ->
  let rs := nextSteps (P (log w) s n v k) in
  let new := imap (fun j r => mkPending (m_interest r)
                     (BindOnData (length (heap w) + j)%nat)
                     (BindOnTimeout (m_retry r) (bindFailure k s)
                        (length (heap w) + j)%nat)) rs in
  exists w',
    validate P s v k n w = Normal w' /\
    m_face w' = Some (mkFace (pit fc ++ new)) /\
    fetches_issued (log w') = fetches_issued (log w) ++ map express_event new /\
    length new = length rs.
Proof.
  intros Hf rs new.
  assert (Hnew : map (pending_of (bindFailure k s)) (fresh_steps (heap w) rs)
                 = new).
  { unfold fresh_steps, new.
    etransitivity; [apply (fmap_imap _ (pending_of (bindFailure k s)))|].
    reflexivity. }
  rewrite (validate_with_face P s v k n w fc Hf). fold rs. rewrite Hnew.
  eexists. split; [reflexivity|]. split; [reflexivity|]. split.
  - cbn [log]. unfold fetches_issued at 1. rewrite !filter_app.
    fold (fetches_issued (log w)).
    fold (fetches_issued (policy_events (P (log w) s n v k) s n v k)).
    fold (fetches_issued (map express_event new)).
    rewrite fetches_issued_policy_events, fetches_issued_express. reflexivity.
  - unfold new. apply length_imap.
Qed.

Lemma validate_issues_in_order_witness :
  exists w',
    validate Sample.twoSiblings (SData Sample.D)
      "onValidated" "onValidationFailed" 0 fresh = Normal w' /\
    length (fetches_issued (log w')) = 2%nat.
Proof.
  destruct (validate_issues_in_order Sample.twoSiblings (SData Sample.D)
              "onValidated" "onValidationFailed" 0 fresh (mkFace []) eq_refl)
    as (w' & Hv & _ & Hlog & _).
  exists w'. split; [exact Hv|]. rewrite Hlog. reflexivity.
Defined.

(** X2: once a face is set, no data or timeout callback throws, whatever
    the events and the policy's answers, and the face stays set: the error
    of a missing face can only come out of a top-level validate call. *)
Theorem callbacks_never_throw P evs w out :
  is_Some (m_face w) ->
  run P evs w = Some out ->
  exists w', out = Normal w' /\ is_Some (m_face w').
Proof.
  intros Hface Hrun.
  apply (run_invariant P (fun w => is_Some (m_face w)) (fun _ => True))
    with (evs := evs) (w := w); auto.
  - intros ev w0 out0 _ _ Hs.
    destruct (step_inv _ _ _ _ Hs)
      as (fc & m & i & q & retry & f & p & Hf & Hn & Hcase).
    destruct Hcase as [[-> ->] | (d & r & -> & Hr & ->)].
    + unfold onTimeout, expressInterest, record, remove_pending. rewrite Hf.
      destruct (0 <? retry); eexists; (split; [reflexivity|]); simpl; eauto.
    + rewrite (validate_with_face P _ _ _ _ (remove_pending m w0)
                 (mkFace (delete m (pit fc)))).
      2:{ unfold remove_pending. rewrite Hf. reflexivity. }
      eexists. split; [reflexivity|]. simpl. eauto.
  - apply Forall_forall. auto.
Qed.

Lemma callbacks_never_throw_witness :
  exists w',
    run Sample.chain [TimesOut 0; DataArrives 0 Sample.certA; TimesOut 0]
      (world_of (validate Sample.chain (SData Sample.D)
                   "onValidated" "onValidationFailed" 0 fresh))
    = Some (Normal w') /\ is_Some (m_face w').
Proof.
  destruct (run Sample.chain
              [TimesOut 0; DataArrives 0 Sample.certA; TimesOut 0]
              (world_of (validate Sample.chain (SData Sample.D)
                           "onValidated" "onValidationFailed" 0 fresh)))
    as [out|] eqn:Hrun; [|vm_compute in Hrun; discriminate Hrun].
  assert (Hface : is_Some (m_face
            (world_of (validate Sample.chain (SData Sample.D)
                         "onValidated" "onValidationFailed" 0 fresh))))
    by (eexists; reflexivity).
  destruct (callbacks_never_throw Sample.chain _ _ out Hface Hrun)
    as (w' & -> & Hf).
  exists w'. split; [reflexivity|exact Hf].
Defined.

(** X3: an event on one pending interest removes that entry and appends
    exactly what the callback registers; every other pending interest
    keeps its place among the others and its bindings.  A timeout with a
    retry left appends the one reissue (same interest and closure, both
    callbacks bound to the request of the onTimeout binding, retry - 1),
    an exhausted timeout appends nothing, and a data arrival appends one
    entry per request the policy returns for the fetched object, in order,
    each with the request's own interest and retry count and the closure
    bind(m_onDataValidated of the answered request, fetched object). *)
Theorem event_touches_one_entry P ev w out fc :
  m_face w = Some fc ->
  step P ev w = Some out ->
  exists m i q retry f p,
    pit fc !! m = Some (mkPending i (BindOnData q) (BindOnTimeout retry f p)) /\
    ((ev = TimesOut m /\
      m_face (world_of out) =
        Some (mkFace (delete m (pit fc) ++
                if 0 <? retry
                then [mkPending i (BindOnData p) (BindOnTimeout (retry - 1) f p)]
                else []))) \/
     (exists d r,
        ev = DataArrives m d /\ heap w !! q = Some r /\
        m_face (world_of out) =
          Some (mkFace (delete m (pit fc) ++
                  imap (fun j r' =>
                          mkPending (m_interest r')
                            (BindOnData (length (heap w) + j)%nat)
                            (BindOnTimeout (m_retry r')
                               (bindFailure (m_onDataValidated r) (SData d))
                               (length (heap w) + j)%nat))
                       (nextSteps (P (log w) (SData d) (m_stepCount r)
                                     (m_onValidated r)
                                     (m_onDataValidated r))))))).
Proof.
  intros Hf Hs.
  destruct (step_inv _ _ _ _ Hs)
    as (fc' & m & i & q & retry & f & p & Hf' & Hn & Hcase).
  rewrite Hf in Hf'. injection Hf' as <-.
  exists m, i, q, retry, f, p. split; [exact Hn|].
  destruct Hcase as [[-> ->] | (d & r & -> & Hr & ->)].
  - left. split; [reflexivity|].
    unfold onTimeout, expressInterest, record, remove_pending. rewrite Hf.
    destruct (0 <? retry); simpl; [reflexivity|].
    rewrite app_nil_r. reflexivity.
  - right. exists d, r. split; [reflexivity|]. split; [exact Hr|].
    rewrite (validate_with_face P _ _ _ _ (remove_pending m w)
               (mkFace (delete m (pit fc)))).
    2:{ unfold remove_pending. rewrite Hf. reflexivity. }
    cbn [world_of m_face pit remove_pending heap log]. do 3 f_equal.
    unfold fresh_steps.
    etransitivity; [apply (fmap_imap _ (pending_of _))|]. reflexivity.
Qed.

Lemma event_touches_one_entry_witness :
  m_face (world_of (default (Normal fresh)
            (step Sample.chain (DataArrives 0 Sample.certA)
               (world_of (validate Sample.chain (SData Sample.D)
                            "onValidated" "onValidationFailed" 0 fresh)))))
  = Some (mkFace
            [mkPending Sample.interestB (BindOnData 1%nat)
               (BindOnTimeout 0
                  (bindFailure "onCertificateValidationFailed"
                     (SData Sample.certA)) 1%nat)]).
Proof.
  destruct (event_touches_one_entry Sample.chain (DataArrives 0 Sample.certA)
              (world_of (validate Sample.chain (SData Sample.D)
                           "onValidated" "onValidationFailed" 0 fresh))
              _ _ eq_refl eq_refl)
    as (m & i & q & retry & f & p & Hm & [[E _] | (d & r & E & Hr & Hface)]).
  - discriminate E.
  - injection E as <- <-. simpl in Hm. injection Hm as <- <- <- <- <-.
    simpl in Hr. injection Hr as <-. exact Hface.
Defined.

(** X4: the failure closures the validator invokes are exactly these: a
    timeout whose retry argument is zero or negative invokes the closure
    bound into that timeout callback, once; a timeout with retries left
    and a data arrival invoke none. *)
Theorem failure_only_on_exhausted_timeout P ev w out :
  step P ev w = Some out ->
  exists fc m i q retry f p,
    m_face w = Some fc /\
    pit fc !! m = Some (mkPending i (BindOnData q) (BindOnTimeout retry f p)) /\
    ((ev = TimesOut m /\
      failures (log (world_of out))
        = failures (log w) ++ (if 0 <? retry then [] else [f])) \/
     ((exists d, ev = DataArrives m d) /\
      failures (log (world_of out)) = failures (log w))).
Proof.
  intros Hs.
  destruct (step_inv _ _ _ _ Hs)
    as (fc & m & i & q & retry & f & p & Hf & Hn & Hcase).
  exists fc, m, i, q, retry, f, p. split; [exact Hf|]. split; [exact Hn|].
  destruct Hcase as [[-> ->] | (d & r & -> & Hr & ->)].
  - left. split; [reflexivity|].
    unfold onTimeout, expressInterest, record, remove_pending.
    destruct (0 <? retry); simpl; rewrite failures_app; reflexivity.
  - right. split; [eexists; reflexivity|].
    rewrite (validate_with_face P _ _ _ _ (remove_pending m w)
               (mkFace (delete m (pit fc)))).
    2:{ unfold remove_pending. rewrite Hf. reflexivity. }
    cbn [world_of log remove_pending].
    rewrite !failures_app, failures_policy_events, failures_express.
    rewrite !app_nil_r. reflexivity.
Qed.

Lemma failure_only_on_exhausted_timeout_witness :
  failures (log (world_of (default (Normal fresh)
     (step Sample.twoSiblings (TimesOut 1)
        (world_of (validate Sample.twoSiblings (SData Sample.D)
                     "onValidated" "onValidationFailed" 0 fresh))))))
  = [bindFailure "onValidationFailed" (SData Sample.D)].
Proof.
  destruct (failure_only_on_exhausted_timeout Sample.twoSiblings (TimesOut 1)
              (world_of (validate Sample.twoSiblings (SData Sample.D)
                           "onValidated" "onValidationFailed" 0 fresh))
              _ eq_refl)
    as (fc & m & i & q & retry & f & p & Hf & Hm
        & [[E H] | [[d E] _]]).
  - injection E as <-. injection Hf as <-. simpl in Hm.
    injection Hm as <- <- <- <- <-. exact H.
  - discriminate E.
Defined.

Lemma budget_timeout P m w out :
  step P (TimesOut m) w = Some out ->
  S (remaining (world_of out)) = remaining w.
Proof.
  intros Hs.
  destruct (step_inv _ _ _ _ Hs)
    as (fc & m' & i & q & retry & f & p & Hf & Hn & Hcase).
  destruct Hcase as [[E ->] | (d & r & E & _)]; [|discriminate E].
  injection E as <-.
  assert (Hsum : sum_list_with budget (pit fc)
                 = (S (Z.to_nat retry) + sum_list_with budget (delete m (pit fc)))%nat).
  { rewrite (delete_Permutation (pit fc) m _ Hn) at 1. reflexivity. }
  unfold remaining. rewrite Hf, Hsum.
  unfold onTimeout, expressInterest, record, remove_pending. rewrite Hf.
  destruct (0 <? retry) eqn:E; simpl.
  - apply Z.ltb_lt in E. rewrite sum_list_with_app. simpl. lia.
  - apply Z.ltb_ge in E. lia.
Qed.

(** X5: every timeout uses up exactly one unit of the retry budget of the
    table (for each pending interest its retries left plus one), so a run
    of timeouts alone cannot be longer than the budget it starts from:
    retries go on until exhaustion and then stop. *)
Theorem timeouts_consume_budget P evs w out :
  Forall is_timeout evs ->
  run P evs w = Some out ->
  (remaining (world_of out) + length evs)%nat = remaining w.
Proof.
  revert w. induction evs as [|ev evs IH]; intros w Hto Hrun.
  - simpl in Hrun. injection Hrun as <-. simpl. lia.
  - inversion Hto as [|? ? Hev Hto']; subst.
    destruct ev as [m d|m]; [destruct Hev|].
    simpl in Hrun.
    destruct (step P (TimesOut m) w) as [o|] eqn:Hs; [|discriminate].
    pose proof (budget_timeout P m w o Hs) as Hb.
    destruct o as [w'|msg w'].
    + specialize (IH w' Hto' Hrun). simpl in *. lia.
    + exfalso. destruct (step_inv _ _ _ _ Hs)
        as (fc & m' & i & q & retry & f & p & Hf & Hn & Hcase).
      destruct Hcase as [[_ E] | (d & r & E & _)]; [|discriminate E].
      unfold onTimeout in E. destruct (0 <? retry); discriminate E.
Qed.

Lemma timeouts_consume_budget_witness :
  (remaining (world_of (default (Normal fresh)
      (run Sample.chain [TimesOut 0; TimesOut 0; TimesOut 0]
         (world_of (validate Sample.chain (SData Sample.D)
                      "onValidated" "onValidationFailed" 0 fresh)))))
   + 3)%nat
  = remaining (world_of (validate Sample.chain (SData Sample.D)
                           "onValidated" "onValidationFailed" 0 fresh)).
Proof.
  apply (timeouts_consume_budget Sample.chain
           [TimesOut 0; TimesOut 0; TimesOut 0]
           (world_of (validate Sample.chain (SData Sample.D)
                        "onValidated" "onValidationFailed" 0 fresh))
           (Normal _)).
  - repeat constructor.
  - reflexivity.
Defined.

(** ** The fetch discipline *)

Lemma fetches_for_snoc_other p l e :
  fetch_for p e = false -> fetches_for p (l ++ [e]) = fetches_for p l.
Proof.
  intros He. unfold fetches_for. rewrite filter_app.
  rewrite filter_cons_False by (rewrite He; discriminate).
  apply app_nil_r.
Qed.

Lemma fetches_for_snoc_same p l e :
  fetch_for p e = true ->
  length (fetches_for p (l ++ [e])) = S (length (fetches_for p l)).
Proof.
  intros He. unfold fetches_for. rewrite filter_app.
  rewrite filter_cons_True by exact He.
  rewrite length_app. simpl. lia.
Qed.

Lemma steps_from_fst (b : nat) (rs : list ValidationRequest) :
  map fst (imap (fun k r => ((b + k)%nat, r)) rs) = seq b (length rs).
Proof.
  revert b. induction rs as [|r rs IH]; intros b; [reflexivity|].
  rewrite imap_cons. simpl. rewrite Nat.add_0_r. f_equal.
  rewrite <- IH. f_equal. apply imap_ext. intros k x _. simpl. f_equal. lia.
Qed.

Lemma requests_of_new f h rs :
  map request_of (map (pending_of f) (fresh_steps h rs))
  = seq (length h) (length rs).
Proof.
  rewrite <- steps_from_fst. unfold fresh_steps.
  rewrite map_map. apply map_ext. intros [q r]. reflexivity.
Qed.

(** Among the fetches validate issues there is exactly one for each new
    pointer and none for any other. *)
Lemma fetches_for_steps p f (rs : list ValidationRequest) : forall b,
  length (fetches_for p (map express_event (map (pending_of f)
            (imap (fun k r => ((b + k)%nat, r)) rs))))
  = if bool_decide (b <= p < b + length rs)%nat then 1%nat else 0%nat.
Proof.
  induction rs as [|r rs IH]; intros b.
  - simpl. rewrite bool_decide_eq_false_2 by lia. reflexivity.
  - rewrite imap_cons. simpl.
    rewrite (imap_ext _ (fun k r => ((S b + k)%nat, r)))
      by (intros k x _; simpl; f_equal; lia).
    unfold fetches_for in *. pose proof (IH (S b)) as IH'. simpl in IH'.
    destruct (decide (p = b)) as [->|Hne].
    + rewrite filter_cons_True
        by (simpl; rewrite bool_decide_eq_true; lia).
      simpl. rewrite IH'.
      rewrite (bool_decide_eq_false_2 (S b <= b < _)%nat) by lia.
      rewrite bool_decide_eq_true_2 by lia. reflexivity.
    + rewrite filter_cons_False
        by (simpl; rewrite bool_decide_eq_true; lia).
      simpl. rewrite IH'. repeat case_bool_decide; lia.
Qed.

Lemma fetches_for_new p f h rs :
  length (fetches_for p (map express_event (map (pending_of f)
            (fresh_steps h rs))))
  = if bool_decide (length h <= p < length h + length rs)%nat
    then 1%nat else 0%nat.
Proof. apply fetches_for_steps. Qed.

Lemma policy_events_no_fetch res s n v k i od ot :
  EvExpressInterest i od ot ∉ policy_events res s n v k.
Proof.
  unfold policy_events. intros Hin.
  apply elem_of_cons in Hin as [E|Hin]; [discriminate E|].
  apply list_elem_of_fmap in Hin as (c & E & _). discriminate E.
Qed.

Lemma disciplined_fresh : disciplined fresh.
Proof.
  exists (mkFace []). split; [reflexivity|]. simpl.
  split; [constructor|]. split; [constructor|].
  split; [intros p r H; rewrite lookup_nil in H; discriminate H|].
  split; [reflexivity|].
  intros i q ot H. apply elem_of_nil in H. destruct H.
Qed.

Lemma disciplined_validate P s v k n w :
  disciplined w ->
  exists w', validate P s v k n w = Normal w' /\ disciplined w'.
Proof.
  intros (fc & Hf & ND & EO & NP & FR & LG).
  rewrite (validate_with_face P s v k n w fc Hf).
  set (rs := nextSteps (P (log w) s n v k)).
  set (c := bindFailure k s).
  set (new := map (pending_of c) (fresh_steps (heap w) rs)).
  set (pe := policy_events (P (log w) s n v k) s n v k).
  eexists. split; [reflexivity|].
  exists (mkFace (pit fc ++ new)). split; [reflexivity|]. cbn [heap log pit].
  assert (Hcount : forall p,
    length (fetches_for p (log w ++ pe ++ map express_event new))
    = (length (fetches_for p (log w))
       + if bool_decide (length (heap w) <= p < length (heap w) + length rs)%nat
         then 1 else 0)%nat).
  { intros p. rewrite !fetches_for_app. unfold pe.
    rewrite fetches_for_policy_events. rewrite !length_app. simpl.
    unfold new. rewrite fetches_for_new. reflexivity. }
  assert (Hold : forall e, e ∈ pit fc -> (request_of e < length (heap w))%nat).
  { intros e He. rewrite Forall_forall in EO.
    destruct (EO e He) as (p & r & retry & f & -> & Hp & _).
    simpl. eapply lookup_lt_Some. exact Hp. }
  repeat split.
  - rewrite map_app. apply NoDup_app. split; [exact ND|]. split.
    + intros x Hx Hx'. unfold new in Hx'. rewrite requests_of_new in Hx'.
      apply elem_of_seq in Hx'.
      apply list_elem_of_fmap in Hx as (e & -> & He).
      specialize (Hold e He). lia.
    + unfold new. rewrite requests_of_new. apply NoDup_seq.
  - apply Forall_app. split.
    + rewrite Forall_forall in EO. apply Forall_forall. intros e He.
      destruct (EO e He) as (p & r & retry & f & -> & Hp & Hr & Hc).
      exists p, r, retry, f. split; [reflexivity|].
      split; [apply lookup_app_l_Some, Hp|]. split; [exact Hr|].
      rewrite Hcount. apply lookup_lt_Some in Hp.
      rewrite bool_decide_eq_false_2 by lia. rewrite Nat.add_0_r. exact Hc.
    + apply Forall_lookup. intros j e Hj. unfold new, fresh_steps in Hj.
      rewrite list_lookup_fmap, list_lookup_imap in Hj.
      destruct (rs !! j) as [r|] eqn:Hr; [|discriminate Hj].
      simpl in Hj. injection Hj as <-.
      exists (length (heap w) + j)%nat, r, (m_retry r), c.
      split; [reflexivity|]. split.
      { rewrite lookup_app_r by lia.
        replace (length (heap w) + j - length (heap w))%nat with j by lia.
        exact Hr. }
      split; [right; reflexivity|].
      rewrite Hcount. rewrite FR by lia. apply lookup_lt_Some in Hr.
      rewrite bool_decide_eq_true_2 by lia. simpl. lia.
  - intros p r Hp Hnot. rewrite Hcount.
    rewrite map_app in Hnot. apply not_elem_of_app in Hnot as [Hn1 Hn2].
    unfold new in Hn2. rewrite requests_of_new in Hn2.
    rewrite elem_of_seq in Hn2.
    pose proof (lookup_lt_Some _ _ _ Hp) as Hlt. rewrite length_app in Hlt.
    assert (Hp' : (p < length (heap w))%nat) by lia.
    rewrite lookup_app_l in Hp by exact Hp'.
    rewrite bool_decide_eq_false_2 by lia. rewrite Nat.add_0_r.
    apply NP; assumption.
  - intros p Hp. rewrite length_app in Hp.
    apply length_zero_iff_nil. rewrite Hcount. rewrite FR by lia.
    rewrite bool_decide_eq_false_2 by lia. reflexivity.
  - intros i q ot Hin.
    apply elem_of_app in Hin as [Hin|Hin].
    { destruct (LG i q ot Hin) as (r & Hq & ->).
      exists r. split; [apply lookup_app_l_Some, Hq|reflexivity]. }
    apply elem_of_app in Hin as [Hin|Hin].
    { exfalso. eapply policy_events_no_fetch. exact Hin. }
    apply list_elem_of_fmap in Hin as (e & E & He).
    apply list_elem_of_lookup in He as [j Hj]. unfold new, fresh_steps in Hj.
    rewrite list_lookup_fmap, list_lookup_imap in Hj.
    destruct (rs !! j) as [r|] eqn:Hr; [|discriminate Hj].
    simpl in Hj. injection Hj as <-. injection E as -> -> _.
    exists r. split; [|reflexivity].
    rewrite lookup_app_r by lia.
    replace (length (heap w) + j - length (heap w))%nat with j by lia.
    exact Hr.
Qed.

Lemma requests_after_delete m (l : list PendingInterest) e :
  l !! m = Some e ->
  map request_of l ≡ₚ request_of e :: map request_of (delete m l).
Proof.
  intros Hm. rewrite (list_fmap_delete request_of).
  apply delete_Permutation. rewrite list_lookup_fmap, Hm. reflexivity.
Qed.

Lemma entry_ok_bound h l e p r :
  entry_ok h l e -> request_of e = p -> h !! p = Some r ->
  Z.of_nat (length (fetches_for p l)) <= Z.max 0 (m_retry r) + 1.
Proof.
  intros (p' & r' & retry & f & -> & Hp & Hr & Hc) Hreq Hpr.
  unfold request_of in Hreq. simpl in Hreq. subst p'.
  rewrite Hp in Hpr. injection Hpr as <-. lia.
Qed.

Lemma disciplined_remove m w fc e :
  m_face w = Some fc -> pit fc !! m = Some e ->
  disciplined w -> disciplined (remove_pending m w).
Proof.
  intros Hf Hm (fc' & Hf' & ND & EO & NP & FR & LG).
  rewrite Hf in Hf'. injection Hf' as <-.
  pose proof (requests_after_delete m (pit fc) e Hm) as Hperm.
  rewrite Hperm in ND. apply NoDup_cons in ND as [Hnot ND'].
  unfold remove_pending. rewrite Hf. simpl.
  exists (mkFace (delete m (pit fc))). split; [reflexivity|]. simpl.
  split; [exact ND'|]. split; [apply Forall_delete, EO|].
  split; [|split; assumption].
  intros p r Hp Hnp. destruct (decide (p = request_of e)) as [->|Hne].
  - eapply entry_ok_bound; [|reflexivity|exact Hp].
    rewrite Forall_lookup in EO. eapply EO. exact Hm.
  - apply NP; [exact Hp|]. rewrite Hperm. intros Hin.
    apply elem_of_cons in Hin as [E|Hin]; [contradiction|contradiction].
Qed.

Lemma disciplined_failure f w :
  disciplined w -> disciplined (record (EvOnFailure f) w).
Proof.
  intros (fc & Hf & ND & EO & NP & FR & LG).
  exists fc. unfold record. simpl. split; [exact Hf|]. split; [exact ND|].
  split; [|split; [|split]].
  - eapply Forall_impl; [exact EO|].
    intros e (p & r & retry & f0 & -> & Hp & Hr & Hc).
    exists p, r, retry, f0. rewrite fetches_for_snoc_other by reflexivity. auto.
  - intros p r Hp Hnp. rewrite fetches_for_snoc_other by reflexivity. auto.
  - intros p Hp. rewrite fetches_for_snoc_other by reflexivity. auto.
  - intros i q ot Hin. apply elem_of_app in Hin as [Hin|Hin]; [eauto|].
    apply list_elem_of_singleton in Hin. discriminate Hin.
Qed.

(** A timeout with retries left: the fetch is registered again with one
    retry fewer, and counted. *)
Lemma disciplined_reissue m w fc i q retry f p :
  m_face w = Some fc ->
  pit fc !! m = Some (mkPending i (BindOnData q) (BindOnTimeout retry f p)) ->
  0 < retry ->
  disciplined w ->
  disciplined (expressInterest i (BindOnData p)
                 (BindOnTimeout (retry - 1) f p) (remove_pending m w)).
Proof.
  intros Hf Hm Hpos (fc' & Hf' & ND & EO & NP & FR & LG).
  rewrite Hf in Hf'. injection Hf' as <-.
  pose proof (requests_after_delete m (pit fc) _ Hm) as Hperm.
  assert (Hent := proj1 (Forall_lookup _ _) EO _ _ Hm).
  destruct Hent as (p0 & r & retry0 & f0 & E & Hp & Hr & Hc).
  injection E as Ei Eq Er Ef Ep. subst i q retry0 f0 p0.
  simpl in Hperm.
  pose proof ND as ND0. rewrite Hperm in ND0.
  apply NoDup_cons in ND0 as [Hnot ND'].
  set (ev := EvExpressInterest (m_interest r) (BindOnData p)
               (BindOnTimeout (retry - 1) f p)).
  assert (Hsame : fetch_for p ev = true)
    by (simpl; apply bool_decide_eq_true; reflexivity).
  assert (Hother : forall p', p' <> p -> fetch_for p' ev = false)
    by (intros p' Hne; simpl; apply bool_decide_eq_false; congruence).
  unfold expressInterest, remove_pending. rewrite Hf. simpl. fold ev.
  eexists. split; [reflexivity|]. simpl.
  split; [|split; [|split; [|split]]].
  - rewrite map_app. simpl.
    rewrite <- Permutation_cons_append. rewrite <- Hperm. exact ND.
  - apply Forall_app. split.
    + apply Forall_forall. intros e He.
      assert (He0 : e ∈ pit fc).
      { eapply elem_of_submseteq; [exact He|apply submseteq_delete]. }
      rewrite Forall_forall in EO.
      destruct (EO e He0) as (p1 & r1 & retry1 & f1 & -> & Hp1 & Hr1 & Hc1).
      exists p1, r1, retry1, f1. split; [reflexivity|].
      split; [exact Hp1|]. split; [exact Hr1|].
      rewrite fetches_for_snoc_other; [exact Hc1|]. apply Hother.
      intros ->. apply Hnot.
      apply (list_elem_of_fmap_2 request_of) in He. exact He.
    + constructor; [|constructor].
      exists p, r, (retry - 1), f. split; [reflexivity|].
      split; [exact Hp|]. split; [left; lia|].
      rewrite fetches_for_snoc_same by exact Hsame. lia.
  - intros p' r' Hp' Hnp. rewrite map_app in Hnp. simpl in Hnp.
    apply not_elem_of_app in Hnp as [Hn1 Hn2].
    rewrite list_elem_of_singleton in Hn2.
    rewrite fetches_for_snoc_other by (apply Hother; exact Hn2).
    apply NP; [exact Hp'|]. rewrite Hperm. intros Hin.
    apply elem_of_cons in Hin as [E|Hin]; contradiction.
  - intros p' Hp'. apply lookup_lt_Some in Hp.
    rewrite fetches_for_snoc_other by (apply Hother; lia). auto.
  - intros i q ot Hin. apply elem_of_app in Hin as [Hin|Hin]; [eauto|].
    apply list_elem_of_singleton in Hin. injection Hin as -> -> _.
    exists r. auto.
Qed.

Lemma disciplined_step P ev w out :
  disciplined w -> step P ev w = Some out ->
  exists w', out = Normal w' /\ disciplined w'.
Proof.
  intros Hd Hs.
  destruct (step_inv _ _ _ _ Hs)
    as (fc & m & i & q & retry & f & p & Hf & Hm & Hcase).
  destruct Hcase as [[-> ->] | (d & r & -> & Hr & ->)].
  - unfold onTimeout. destruct (0 <? retry) eqn:E.
    + apply Z.ltb_lt in E. eexists. split; [reflexivity|].
      eapply disciplined_reissue; eauto.
    + eexists. split; [reflexivity|].
      apply disciplined_failure. eapply disciplined_remove; eauto.
  - apply disciplined_validate. eapply disciplined_remove; eauto.
Qed.

Lemma disciplined_run P s v k n evs w1 out :
  validate P s v k n fresh = Normal w1 ->
  run P evs w1 = Some out ->
  exists w', out = Normal w' /\ disciplined w'.
Proof.
  intros Hv Hrun.
  destruct (disciplined_validate P s v k n fresh disciplined_fresh)
    as (w1' & Hv' & Hd1).
  rewrite Hv in Hv'. injection Hv' as <-.
  apply (run_invariant P disciplined (fun _ => True))
    with (evs := evs) (w := w1); auto.
  - intros ev w0 out0 _. apply disciplined_step.
  - apply Forall_forall. auto.
Qed.

(** X6: at any point of a run that follows a top-level validate, no
    ValidationRequest has two fetches in flight: the pending interests are
    bound to pairwise different requests. *)
Theorem one_fetch_in_flight P s v k n evs w1 out :
  validate P s v k n fresh = Normal w1 ->
  run P evs w1 = Some out ->
  exists w' fc,
    out = Normal w' /\ m_face w' = Some fc /\
    NoDup (map request_of (pit fc)).
Proof.
  intros Hv Hrun.
  destruct (disciplined_run P s v k n evs w1 out Hv Hrun)
    as (w' & -> & fc & Hf & ND & _).
  eauto.
Qed.

Lemma one_fetch_in_flight_witness :
  exists w' fc,
    default (Normal fresh)
      (run Sample.chain [TimesOut 0; DataArrives 0 Sample.certA]
         (world_of (validate Sample.chain (SData Sample.D)
                      "onValidated" "onValidationFailed" 0 fresh)))
    = Normal w' /\ m_face w' = Some fc /\
    NoDup (map request_of (pit fc)).
Proof.
  apply (one_fetch_in_flight Sample.chain (SData Sample.D)
           "onValidated" "onValidationFailed" 0
           [TimesOut 0; DataArrives 0 Sample.certA] _ _ eq_refl eq_refl).
Defined.

(** X7: at any point of such a run every pending interest is a fetch of a
    request that is in the store: it carries the request's own m_interest,
    its onData and onTimeout callbacks are bound to that same request, and
    so both a data arrival and a timeout on it can be served (the pointer
    never dangles). *)
Theorem pending_interests_in_order P s v k n evs w1 out :
  validate P s v k n fresh = Normal w1 ->
  run P evs w1 = Some out ->
  exists w' fc,
    out = Normal w' /\ m_face w' = Some fc /\
    forall m e, pit fc !! m = Some e ->
      (exists p r retry f,
         e = mkPending (m_interest r) (BindOnData p) (BindOnTimeout retry f p) /\
         heap w' !! p = Some r) /\
      (forall d, is_Some (step P (DataArrives m d) w')) /\
      is_Some (step P (TimesOut m) w').
Proof.
  intros Hv Hrun.
  destruct (disciplined_run P s v k n evs w1 out Hv Hrun)
    as (w' & -> & fc & Hf & _ & EO & _).
  exists w', fc. split; [reflexivity|]. split; [exact Hf|].
  intros m e Hm. rewrite Forall_lookup in EO.
  destruct (EO m e Hm) as (p & r & retry & f & -> & Hp & _).
  split; [exists p, r, retry, f; auto|]. split.
  - intros d. rewrite (step_data P m d w' fc _ r Hf Hm Hp). eauto.
  - rewrite (step_timeout P m w' fc _ _ _ _ _ Hf Hm). eauto.
Qed.

Lemma pending_interests_in_order_witness :
  exists w' fc,
    default (Normal fresh)
      (run Sample.chain [TimesOut 0; DataArrives 0 Sample.certA]
         (world_of (validate Sample.chain (SData Sample.D)
                      "onValidated" "onValidationFailed" 0 fresh)))
    = Normal w' /\ m_face w' = Some fc /\
    forall m e, pit fc !! m = Some e ->
      (exists p r retry f,
         e = mkPending (m_interest r) (BindOnData p) (BindOnTimeout retry f p) /\
         heap w' !! p = Some r) /\
      (forall d, is_Some (step Sample.chain (DataArrives m d) w')) /\
      is_Some (step Sample.chain (TimesOut m) w').
Proof.
  apply (pending_interests_in_order Sample.chain (SData Sample.D)
           "onValidated" "onValidationFailed" 0
           [TimesOut 0; DataArrives 0 Sample.certA] _ _ eq_refl eq_refl).
Defined.

(** X8: over any run that follows a top-level validate, whatever the
    interleaving of the events of different requests, the interests
    expressed for one ValidationRequest number at most its retry count
    plus one (one, when the count is zero or negative). *)
Theorem fetches_bounded_by_retry P s v k n evs w1 out :
  validate P s v k n fresh = Normal w1 ->
  run P evs w1 = Some out ->
  forall p r, heap (world_of out) !! p = Some r ->
    Z.of_nat (length (fetches_for p (log (world_of out))))
    <= Z.max 0 (m_retry r) + 1.
Proof.
  intros Hv Hrun p r Hp.
  destruct (disciplined_run P s v k n evs w1 out Hv Hrun)
    as (w' & -> & fc & Hf & _ & EO & NP & _).
  cbn [world_of] in *.
  destruct (decide (p ∈ map request_of (pit fc))) as [Hin|Hnot].
  - apply list_elem_of_fmap in Hin as (e & -> & He).
    rewrite Forall_forall in EO.
    eapply entry_ok_bound; [apply EO, He|reflexivity|exact Hp].
  - apply NP; assumption.
Qed.

Lemma fetches_bounded_by_retry_witness :
  Z.of_nat (length (fetches_for 0%nat (log (world_of
     (default (Normal fresh)
        (run Sample.chain [TimesOut 0; TimesOut 0; TimesOut 0]
           (world_of (validate Sample.chain (SData Sample.D)
                        "onValidated" "onValidationFailed" 0 fresh))))))))
  <= Z.max 0 2 + 1.
Proof.
  apply (fetches_bounded_by_retry Sample.chain (SData Sample.D)
           "onValidated" "onValidationFailed" 0
           [TimesOut 0; TimesOut 0; TimesOut 0] _ _ eq_refl eq_refl
           0%nat (Sample.request Sample.interestA 2 1) eq_refl).
Defined.

(** X9: every interest the validator ever expresses, first issue or
    reissue, at any depth of the chain, is the m_interest stored in the
    ValidationRequest its onData callback is bound to: the target of a
    request's fetches never changes. *)
Theorem fetch_targets_never_change P s v k n evs w1 out :
  validate P s v k n fresh = Normal w1 ->
  run P evs w1 = Some out ->
  forall i q ot,
    EvExpressInterest i (BindOnData q) ot ∈ log (world_of out) ->
    exists r, heap (world_of out) !! q = Some r /\ i = m_interest r.
Proof.
  intros Hv Hrun.
  destruct (disciplined_run P s v k n evs w1 out Hv Hrun)
    as (w' & -> & fc & Hf & _ & _ & _ & _ & LG).
  exact LG.
Qed.

Lemma fetch_targets_never_change_witness :
  exists r,
    heap (world_of (default (Normal fresh)
            (run Sample.chain [TimesOut 0]
               (world_of (validate Sample.chain (SData Sample.D)
                            "onValidated" "onValidationFailed" 0 fresh)))))
      !! 0%nat = Some r /\
    Sample.interestA = m_interest r.
Proof.
  apply (fetch_targets_never_change Sample.chain (SData Sample.D)
           "onValidated" "onValidationFailed" 0 [TimesOut 0] _ _
           eq_refl eq_refl Sample.interestA 0%nat
           (BindOnTimeout 1
              (bindFailure "onValidationFailed" (SData Sample.D)) 0%nat)).
  vm_compute. repeat constructor.
Defined.

(** * Further properties of signature verification *)

Lemma try_catch_ret_false {A} (m : M A) catches (a : A) l e :
  (try_catch m catches (ret a) l).1 = Throws e -> catches e = false.
Proof.
  unfold try_catch, ret. destruct (m l) as [[x|e'|] l']; simpl;
    try discriminate.
  destruct (catches e') eqn:E; simpl; [discriminate|].
  intros [= <-]. exact E.
Qed.

(** X10: the exceptions a handler names never leave the function, and
    where one is raised the result is false.  On the Data and Buffer paths
    a Signature::Error of the signature conversion, of the key loader or
    of the encoder gives false; on the interest path a Signature::Error or
    a Block::Error raised while the name is encoded, parsed and decoded
    into a Signature, or by the conversion or the key loader afterwards,
    gives false, with the calls made up to the throw. *)
Theorem caught_exceptions_never_escape L key l :
  (forall data,
     (verifySignature_Data L data key l).1 <> Throws Signature_Error
     /\ (getType (getSignature data) = Sha256WithRsa L ->
         (SignatureSha256WithRsa_ctor L (getSignature data)
            = Throws Signature_Error ->
          verifySignature_Data L data key l
            = (Returns false,
               l ++ [OpSignatureSha256WithRsa (getSignature data)]))
         /\ (forall s,
              SignatureSha256WithRsa_ctor L (getSignature data) = Returns s ->
              RSA_Load L (get key) = Throws Signature_Error ->
              (verifySignature_Data L data key l).1 = Returns false)
         /\ (forall s pk,
              SignatureSha256WithRsa_ctor L (getSignature data) = Returns s ->
              RSA_Load L (get key) = Returns pk ->
              Data_wireEncode L data = Throws Signature_Error ->
              (verifySignature_Data L data key l).1 = Returns false)))
  /\ (forall buf sig,
     (verifySignature_Buffer L buf sig key l).1 <> Throws Signature_Error
     /\ (getType sig = Sha256WithRsa L ->
         (SignatureSha256WithRsa_ctor L sig = Throws Signature_Error ->
          verifySignature_Buffer L buf sig key l
            = (Returns false, l ++ [OpSignatureSha256WithRsa sig]))
         /\ (forall s,
              SignatureSha256WithRsa_ctor L sig = Returns s ->
              RSA_Load L (get key) = Throws Signature_Error ->
              (verifySignature_Buffer L buf sig key l).1 = Returns false)))
  /\ (forall interest,
     (verifySignature_Interest L interest key l).1 <> Throws Signature_Error
     /\ (verifySignature_Interest L interest key l).1 <> Throws Block_Error
     /\ (3 <= Z.of_nat (length (getName interest)) ->
         forall e, catches_Signature_Block e = true ->
           (forall l',
              interest_signature L (getName interest) l = (Throws e, l') ->
              verifySignature_Interest L interest key l = (Returns false, l'))
           /\ (forall nameBlock sig l',
                interest_signature L (getName interest) l
                  = (Returns (nameBlock, sig), l') ->
                getType sig = Sha256WithRsa L ->
                (SignatureSha256WithRsa_ctor L sig = Throws e ->
                 verifySignature_Interest L interest key l
                   = (Returns false, l' ++ [OpSignatureSha256WithRsa sig]))
                /\ (forall s last,
                     SignatureSha256WithRsa_ctor L sig = Returns s ->
                     rev (getAll nameBlock) !! 0%nat = Some last ->
                     RSA_Load L (get key) = Throws e ->
                     (verifySignature_Interest L interest key l).1
                       = Returns false)))).
Proof.
  split; [|split].
  - intros data. split.
    { intros H. apply try_catch_ret_false in H. discriminate H. }
    intros Hty. unfold verifySignature_Data. rewrite Hty, Z.eqb_refl.
    unfold verifySignature_Data_rsa. run_M. split; [|split].
    + intros ->. reflexivity.
    + intros s -> ->. reflexivity.
    + intros s pk -> -> ->. reflexivity.
  - intros buf sig. split.
    { intros H. apply try_catch_ret_false in H. discriminate H. }
    intros Hty. unfold verifySignature_Buffer. rewrite Hty, Z.eqb_refl.
    unfold verifySignature_Buffer_rsa, rsa_verify. run_M. split.
    + intros ->. reflexivity.
    + intros s -> ->. reflexivity.
  - intros interest. unfold verifySignature_Interest.
    destruct (Z.of_nat (length (getName interest)) <? 3) eqn:E.
    { split; [discriminate|]. split; [discriminate|].
      apply Z.ltb_lt in E. intros Hsz. lia. }
    split; [intros H; apply try_catch_ret_false in H; discriminate H|].
    split; [intros H; apply try_catch_ret_false in H; discriminate H|].
    intros _ e He. split.
    + intros l' Hdec. unfold try_catch, bind at 1. rewrite Hdec.
      cbn [fst snd]. rewrite He. reflexivity.
    + intros nameBlock sig l' Hdec Hty. split.
      * intros Hctor.
        unfold try_catch, bind at 1. rewrite Hdec. cbn [fst snd].
        unfold interest_switch. rewrite Hty, Z.eqb_refl.
        unfold verifySignature_raw_rsa, rsa_verify. run_M.
        rewrite Hctor. cbn beta iota delta [fst snd]. rewrite He. reflexivity.
      * intros s last Hctor Hlast Hload.
        unfold try_catch, bind at 1. rewrite Hdec. cbn [fst snd].
        unfold interest_switch. rewrite Hty, Z.eqb_refl.
        unfold verifySignature_raw_rsa, rsa_verify. run_M.
        rewrite Hctor, Hlast, Hload. unfold ret.
        cbn beta iota delta [fst snd]. rewrite He. reflexivity.
Qed.

Lemma caught_exceptions_never_escape_witness :
  verifySignature_Data Sample.rejectingLib Sample.D Sample.goodKey []
  = (Returns false, [OpSignatureSha256WithRsa (getSignature Sample.D)]).
Proof.
  destruct (caught_exceptions_never_escape Sample.rejectingLib Sample.goodKey [])
    as (HD & _ & _).
  destruct (HD Sample.D) as (_ & H).
  destruct (H eq_refl) as (H1 & _ & _).
  exact (H1 eq_refl).
Defined.

(** X11: with a Sha256WithRsa signature, a key that loads and a packet
    that encodes, verifySignature(Data, PublicKey) makes these calls in
    this order (conversion of the signature, key load, two wireEncode,
    VerifyMessage) and returns the verifier's verdict unchanged; the
    signature bytes handed over are the value octets of the signature
    value, and the verdict is the one the (pointer, size) overload gives on
    the same range. *)
Theorem data_path_verdict L data key l s pk blk :
  getType (getSignature data) = Sha256WithRsa L ->
  SignatureSha256WithRsa_ctor L (getSignature data) = Returns s ->
  RSA_Load L (get key) = Returns pk ->
  Data_wireEncode L data = Returns blk ->
  let len := size_t_sub (value_size blk) (size (getValue (getSignature data))) in
  let sigv := value (getValue s) in
  let sign := value_size (getValue s) in
  verifySignature_Data L data key l =
    (Returns (VerifyMessage L pk (value blk) len sigv sign),
     l ++ [OpSignatureSha256WithRsa (getSignature data);
           OpLoad (get key);
           OpDataWireEncode data; OpDataWireEncode data;
           OpVerifyMessage (value blk) len sigv sign])
  /\ forall l',
     (verifySignature_Data L data key l).1
     = (verifySignature_raw_rsa L (value blk) len s key l').1.
Proof.
  intros Hty Hctor Hload Henc len sigv sign.
  assert (H : verifySignature_Data L data key l =
    (Returns (VerifyMessage L pk (value blk) len sigv sign),
     l ++ [OpSignatureSha256WithRsa (getSignature data);
           OpLoad (get key);
           OpDataWireEncode data; OpDataWireEncode data;
           OpVerifyMessage (value blk) len sigv sign])).
  { unfold verifySignature_Data. rewrite Hty, Z.eqb_refl.
    unfold verifySignature_Data_rsa. run_M.
    rewrite Hctor, Hload, Henc. cbn beta iota delta [fst snd].
    rewrite <- !app_assoc. reflexivity. }
  split; [exact H|].
  intros l'. rewrite H. unfold verifySignature_raw_rsa, rsa_verify. run_M.
  rewrite Hload. reflexivity.
Qed.

Lemma data_path_verdict_witness :
  (verifySignature_Data (Sample.lib 1) Sample.D Sample.goodKey []).1
  = Returns true.
Proof.
  destruct (data_path_verdict (Sample.lib 1) Sample.D Sample.goodKey []
              Sample.rsaSignature (mkRSA 3233 17) Sample.encodedD
              eq_refl eq_refl eq_refl eq_refl) as [H _].
  rewrite H. reflexivity.
Defined.

(** X12: on the buffer path with a Sha256WithRsa signature and a key that
    loads, the message handed to VerifyMessage is the caller's buffer,
    whole and unchanged, the signature bytes are the value octets of the
    signature value, and the result is the verifier's verdict. *)
Theorem buffer_path_hands_whole_buffer L buf sig key l s pk :
  getType sig = Sha256WithRsa L ->
  SignatureSha256WithRsa_ctor L sig = Returns s ->
  RSA_Load L (get key) = Returns pk ->
  (verifySignature_Buffer L buf sig key l).1
    = Returns (VerifyMessage L pk buf (Z.of_nat (length buf))
                 (value (getValue s)) (value_size (getValue s)))
  /\ handed (verifySignature_Buffer L buf sig key l).2 = handed l ++ [buf].
Proof.
  intros Hty Hctor Hload. unfold verifySignature_Buffer.
  rewrite Hty, Z.eqb_refl.
  unfold verifySignature_Buffer_rsa, rsa_verify. run_M.
  rewrite Hctor, Hload. cbn beta iota delta [fst snd].
  split; [reflexivity|].
  rewrite !handed_app. simpl. rewrite !app_nil_r.
  unfold byte_range. rewrite Nat2Z.id, firstn_all. reflexivity.
Qed.

Lemma buffer_path_hands_whole_buffer_witness :
  handed (verifySignature_Buffer (Sample.lib 1) [Byte.x2a; Byte.x2b]
            Sample.rsaSignature Sample.goodKey []).2
  = [] ++ [[Byte.x2a; Byte.x2b]].
Proof.
  apply (buffer_path_hands_whole_buffer (Sample.lib 1) [Byte.x2a; Byte.x2b]
           Sample.rsaSignature Sample.goodKey [] Sample.rsaSignature
           (mkRSA 3233 17) eq_refl eq_refl eq_refl).
Defined.

(** X13: for an interest of at least three components whose encoded name
    carries one element per component, verifySignature(Interest, PublicKey)
    does not call parse; it builds the Signature with the second-to-last
    element decoded as its first argument (the signature info) and the
    last element decoded as its second argument (the signature value),
    the two decodings being made in the order the compiler evaluates the
    two arguments; for a Sha256WithRsa signature and a key that loads it
    returns the verifier's verdict on the value octets of the name block
    without its last element, against the value octets of the signature
    value. *)
Theorem interest_path_verdict L interest key l nb front infoC valC info val
    sig s pk :
  3 <= Z.of_nat (length (getName interest)) ->
  Name_wireEncode L (getName interest) = Returns nb ->
  getAll nb = front ++ [infoC; valC] ->
  length (getAll nb) = length (getName interest) ->
  blockFromValue L infoC = Returns info ->
  blockFromValue L valC = Returns val ->
  Signature_ctor L info val = Returns sig ->
  getType sig = Sha256WithRsa L ->
  SignatureSha256WithRsa_ctor L sig = Returns s ->
  RSA_Load L (get key) = Returns pk ->
  let len := size_t_sub (value_size nb) (size valC) in
  let sigv := value (getValue s) in
  let sign := value_size (getValue s) in
  verifySignature_Interest L interest key l =
    (Returns (VerifyMessage L pk (value nb) len sigv sign),
     l ++ [OpNameWireEncode (getName interest)]
       ++ (if value_argument_first L
           then [OpBlockFromValue valC; OpBlockFromValue infoC]
           else [OpBlockFromValue infoC; OpBlockFromValue valC])
       ++ [OpSignature info val;
           OpSignatureSha256WithRsa sig;
           OpLoad (get key);
           OpVerifyMessage (value nb) len sigv sign]).
Proof.
  intros Hsz Henc Hall Hlen HbI HbV Hsig Hty Hctor Hload len sigv sign.
  assert (H1 : rev (getAll nb) !! 1%nat = Some infoC).
  { rewrite Hall, rev_app_distr. reflexivity. }
  assert (H0 : rev (getAll nb) !! 0%nat = Some valC).
  { rewrite Hall, rev_app_distr. reflexivity. }
  unfold verifySignature_Interest.
  destruct (Z.of_nat (length (getName interest)) <? 3) eqn:E;
    [apply Z.ltb_lt in E; lia|].
  unfold interest_signature, component_block, interest_switch.
  unfold verifySignature_raw_rsa, rsa_verify. run_M.
  rewrite Henc. cbn beta iota delta [fst snd].
  rewrite bool_decide_eq_true_2 by (rewrite Hlen; reflexivity).
  unfold ret. destruct (value_argument_first L).
  - rewrite H0, HbV, H1, HbI. cbn beta iota delta [fst snd].
    rewrite Hsig. cbn beta iota delta [fst snd].
    rewrite Hty, Z.eqb_refl, Hctor, H0, Hload. cbn beta iota delta [fst snd].
    rewrite <- !app_assoc. reflexivity.
  - rewrite H1, HbI, H0, HbV. cbn beta iota delta [fst snd].
    rewrite Hsig. cbn beta iota delta [fst snd].
    rewrite Hty, Z.eqb_refl, Hctor, H0, Hload. cbn beta iota delta [fst snd].
    rewrite <- !app_assoc. reflexivity.
Qed.

Lemma interest_path_verdict_witness :
  (verifySignature_Interest (Sample.lib 1) Sample.signedInterest
     Sample.goodKey []).1 = Returns true.
Proof.
  pose proof (interest_path_verdict (Sample.lib 1) Sample.signedInterest
                Sample.goodKey [] Sample.encodedName [Sample.compD]
                Sample.compInfo Sample.compValue
                Sample.sigInfoBlock Sample.sigValueBlock
                (mkSignature 1 Sample.sigInfoBlock Sample.sigValueBlock)
                (mkSignature 1 Sample.sigInfoBlock Sample.sigValueBlock)
                (mkRSA 3233 17)
                ltac:(vm_compute; discriminate)
                eq_refl eq_refl eq_refl eq_refl eq_refl eq_refl eq_refl
                eq_refl eq_refl) as H.
  cbv zeta in H. rewrite H. reflexivity.
Defined.

(** * Failure closures: how often, and whose *)

Lemma conserved_refl w : is_Some (m_face w) -> conserved w w [] [].
Proof.
  intros [fc Hf]. exists fc, fc. split; [exact Hf|]. split; [exact Hf|].
  split; [symmetry; apply app_nil_r|]. simpl. rewrite !app_nil_r. reflexivity.
Qed.

Lemma conserved_trans w w1 w2 a1 a2 c1 c2 :
  conserved w w1 a1 c1 -> conserved w1 w2 a2 c2 ->
  conserved w w2 (a1 ++ a2) (c1 ++ c2).
Proof.
  intros (fc & fc1 & Hf & Hf1 & Hl1 & H1) (fc1' & fc2 & Hf1' & Hf2 & Hl2 & H2).
  rewrite Hf1 in Hf1'. injection Hf1' as <-.
  exists fc, fc2. split; [exact Hf|]. split; [exact Hf2|].
  split; [rewrite Hl2, Hl1; symmetry; apply app_assoc|].
  rewrite failures_app, issued_app.
  transitivity (failures a1 ++ c1
                ++ (failures a2 ++ map closure_of (pit fc2) ++ c2));
    [solve_Permutation|].
  rewrite H2.
  transitivity ((failures a1 ++ map closure_of (pit fc1) ++ c1) ++ issued a2);
    [solve_Permutation|].
  rewrite H1. solve_Permutation.
Qed.

Lemma conserved_validate P s v k n w fc :
  m_face w = Some fc ->
  exists w' added,
    validate P s v k n w = Normal w' /\ conserved w w' added [] /\
    failures added = [] /\
    issued added
    = replicate (length (nextSteps (P (log w) s n v k))) (bindFailure k s).
Proof.
  intros Hf. rewrite (validate_with_face P s v k n w fc Hf).
  eexists. eexists. split; [reflexivity|].
  assert (Hfa : failures
            (policy_events (P (log w) s n v k) s n v k
             ++ map express_event
                  (map (pending_of (bindFailure k s))
                     (fresh_steps (heap w) (nextSteps (P (log w) s n v k)))))
            = []).
  { rewrite failures_app, failures_policy_events, failures_express.
    reflexivity. }
  assert (His : issued
            (policy_events (P (log w) s n v k) s n v k
             ++ map express_event
                  (map (pending_of (bindFailure k s))
                     (fresh_steps (heap w) (nextSteps (P (log w) s n v k)))))
            = replicate (length (nextSteps (P (log w) s n v k)))
                (bindFailure k s)).
  { rewrite issued_app, issued_policy_events, issued_express.
    apply app_nil_r. }
  split; [|split; [exact Hfa|exact His]].
  eexists. eexists. split; [exact Hf|]. split; [reflexivity|].
  split; [reflexivity|]. cbn [pit].
  rewrite Hfa, His, map_app, closures_pending, length_fresh_steps.
  simpl. rewrite app_nil_r. reflexivity.
Qed.

Lemma conserved_step P ev w out :
  step P ev w = Some out ->
  exists w' added consumed,
    out = Normal w' /\ conserved w w' added consumed /\
    length consumed = (if is_arrival ev then 1 else 0)%nat /\
    (is_timeout ev -> issued added = []).
Proof.
  intros Hs.
  destruct (step_inv _ _ _ _ Hs)
    as (fc & m & i & q & retry & f & p & Hf & Hn & Hcase).
  assert (Hperm : map closure_of (pit fc)
                  ≡ₚ f :: map closure_of (delete m (pit fc))).
  { rewrite (list_fmap_delete closure_of).
    apply delete_Permutation. rewrite list_lookup_fmap, Hn. reflexivity. }
  destruct Hcase as [[-> ->] | (d & r & -> & Hr & ->)].
  - unfold onTimeout, expressInterest, record, remove_pending. rewrite Hf.
    destruct (0 <? retry).
    + eexists. exists [EvExpressInterest i (BindOnData p)
                         (BindOnTimeout (retry - 1) f p)], [].
      split; [reflexivity|]. split; [|split; [reflexivity|reflexivity]].
      eexists. eexists. split; [exact Hf|]. split; [reflexivity|].
      split; [reflexivity|]. simpl. rewrite !app_nil_r, map_app. simpl.
      rewrite Hperm. symmetry. apply Permutation_cons_append.
    + eexists. exists [EvOnFailure f], [].
      split; [reflexivity|]. split; [|split; [reflexivity|reflexivity]].
      eexists. eexists. split; [exact Hf|]. split; [reflexivity|].
      split; [reflexivity|]. simpl. rewrite !app_nil_r.
      symmetry. exact Hperm.
  - destruct (conserved_validate P (SData d) (m_onValidated r)
                (m_onDataValidated r) (m_stepCount r) (remove_pending m w)
                (mkFace (delete m (pit fc))))
      as (w' & added & Hv & (fc1 & fc' & Hf1 & Hf' & Hl & Hc) & _ & _).
    { unfold remove_pending. rewrite Hf. reflexivity. }
    unfold remove_pending in Hf1. rewrite Hf in Hf1. simpl in Hf1.
    injection Hf1 as <-. simpl in Hc.
    exists w', added, [f]. split; [exact Hv|].
    split; [|split; [reflexivity|intros []]].
    exists fc, fc'. split; [exact Hf|]. split; [exact Hf'|].
    split; [exact Hl|]. rewrite app_nil_r in Hc.
    rewrite Hperm.
    transitivity ((failures added ++ map closure_of (pit fc')) ++ [f]);
      [solve_Permutation|].
    rewrite Hc. solve_Permutation.
Qed.

Lemma conserved_run P evs : forall w out,
  is_Some (m_face w) ->
  run P evs w = Some out ->
  exists w' added consumed,
    out = Normal w' /\ conserved w w' added consumed /\
    length consumed = arrivals evs /\
    (Forall is_timeout evs -> issued added = []).
Proof.
  induction evs as [|ev evs IH]; intros w out Hface Hrun.
  - simpl in Hrun. injection Hrun as <-. exists w, [], [].
    split; [reflexivity|]. split; [apply conserved_refl, Hface|].
    split; reflexivity.
  - simpl in Hrun. destruct (step P ev w) as [o|] eqn:Hs; [|discriminate].
    destruct (conserved_step P ev w o Hs)
      as (w1 & a1 & c1 & -> & Hc1 & Hn1 & Hi1).
    assert (Hface1 : is_Some (m_face w1)).
    { destruct Hc1 as (_ & fc1 & _ & Hf1 & _). eauto. }
    destruct (IH w1 out Hface1 Hrun) as (w' & a2 & c2 & -> & Hc2 & Hn2 & Hi2).
    exists w', (a1 ++ a2), (c1 ++ c2). split; [reflexivity|].
    split; [eapply conserved_trans; eauto|]. split.
    + rewrite length_app, Hn1, Hn2. unfold arrivals.
      destruct ev as [m d|m]; cbn [is_arrival].
      * rewrite filter_cons_True by reflexivity. reflexivity.
      * rewrite filter_cons_False by discriminate. reflexivity.
    + intros Hto. inversion Hto as [|? ? Hev Hto']; subst.
      rewrite issued_app, Hi1, Hi2 by assumption. reflexivity.
Qed.

(** Letting the first pending interest time out again and again empties
    the table in as many timeouts as the budget counts. *)
Lemma exhaust_all P : forall b w,
  is_Some (m_face w) -> remaining w = b ->
  exists w',
    run P (replicate b (TimesOut 0)) w = Some (Normal w') /\
    m_face w' = Some (mkFace []).
Proof.
  induction b as [|b IH]; intros w [fc Hf] Hb.
  - exists w. split; [reflexivity|]. unfold remaining in Hb. rewrite Hf in Hb.
    destruct fc as [[|e es]]; [exact Hf|].
    simpl in Hb. unfold budget in Hb. destruct (pi_onTimeout e). lia.
  - destruct (pit fc) as [|e es] eqn:Hpit.
    { unfold remaining in Hb. rewrite Hf, Hpit in Hb. discriminate Hb. }
    destruct e as [i [q] [retry f p]].
    assert (Hs := step_timeout P 0 w fc i q retry f p Hf
                    ltac:(rewrite Hpit; reflexivity)).
    pose proof (budget_timeout P 0 w _ Hs) as Hbud. cbn [world_of] in Hbud.
    simpl replicate. simpl run. rewrite Hs.
    apply IH; [|lia].
    destruct (0 <? retry); simpl; eauto.
Qed.

Lemma timeouts_only b m : Forall is_timeout (replicate b (TimesOut m)).
Proof. apply Forall_replicate. exact I. Qed.

Lemma arrivals_timeouts b m : arrivals (replicate b (TimesOut m)) = 0%nat.
Proof.
  unfold arrivals. induction b as [|b IH]; [reflexivity|].
  simpl. rewrite filter_cons_False by discriminate. exact IH.
Qed.

(** C1 (amended): take a top-level validate on a validator with a face,
    whatever is already in flight, and any run after it.  The failure
    closures invoked since the call, those still pending and those of the
    fetches answered by data (one per data arrival) are, one for one, the
    closures that were pending at the call and one closure per
    ValidationRequest returned by checkPolicy since: a closure is invoked
    exactly once for each request whose retries run out, never twice for
    one request, and not just once per call.  When the events are timeouts
    only, the requests returned are those of the top-level call, all with
    bind(onValidationFailed, subject).  And when nothing else is in flight
    and all n sibling requests time out until exhaustion, the shared
    closure is invoked exactly n times and no fetch is left pending. *)
Theorem failure_once_per_request P s v k n evs w fc w1 out :
  m_face w = Some fc ->
  validate P s v k n w = Normal w1 ->
  run P evs w1 = Some out ->
  let c := bindFailure k s in
  let rs := nextSteps (P (log w) s n v k) in
  (exists w' added consumed,
     out = Normal w' /\ conserved w w' added consumed /\
     length consumed = arrivals evs /\
     (Forall is_timeout evs -> issued added = replicate (length rs) c))
  /\ (pit fc = [] ->
      exists w' added,
        run P (replicate (remaining w1) (TimesOut 0)) w1 = Some (Normal w') /\
        m_face w' = Some (mkFace []) /\
        log w' = log w ++ added /\
        failures added = replicate (length rs) c).
Proof.
  intros Hf Hv Hrun c rs.
  destruct (conserved_validate P s v k n w fc Hf)
    as (w1' & a1 & Hv' & Hc1 & Hfa1 & His1).
  rewrite Hv in Hv'. injection Hv' as <-.
  assert (Hface1 : is_Some (m_face w1)).
  { destruct Hc1 as (_ & fc1 & _ & Hf1 & _). eauto. }
  assert (Hany : forall evs' out', run P evs' w1 = Some out' ->
    exists w' added consumed,
      out' = Normal w' /\ conserved w w' added consumed /\
      length consumed = arrivals evs' /\
      (Forall is_timeout evs' -> issued added = replicate (length rs) c)).
  { intros evs' out' Hrun'.
    destruct (conserved_run P evs' w1 out' Hface1 Hrun')
      as (w' & a2 & c2 & -> & Hc2 & Hn2 & Hi2).
    exists w', (a1 ++ a2), ([] ++ c2). split; [reflexivity|].
    split; [eapply conserved_trans; eauto|]. split; [exact Hn2|].
    intros Hto. rewrite issued_app, His1, (Hi2 Hto). apply app_nil_r. }
  split; [apply Hany, Hrun|].
  intros Hpit.
  destruct (exhaust_all P (remaining w1) w1 Hface1 eq_refl) as (w' & Hex & Hf').
  destruct (Hany _ _ Hex)
    as (w'' & added & consumed & E & (fc0 & fc' & Hf0 & Hf'' & Hl & Hc) & Hn & Hi).
  injection E as <-.
  rewrite Hf in Hf0. injection Hf0 as <-.
  rewrite Hf' in Hf''. injection Hf'' as <-.
  exists w', added. split; [exact Hex|]. split; [exact Hf'|].
  split; [exact Hl|].
  rewrite arrivals_timeouts in Hn. apply length_zero_iff_nil in Hn. subst consumed.
  rewrite Hpit, (Hi (timeouts_only _ _)) in Hc. simpl in Hc.
  rewrite !app_nil_r in Hc. symmetry.
  apply replicate_Permutation. symmetry. exact Hc.
Qed.

Lemma failure_once_per_request_witness :
  exists w' added,
    run Sample.twoSiblings
      (replicate (remaining (world_of
          (validate Sample.twoSiblings (SData Sample.D)
             "onValidated" "onValidationFailed" 0 fresh))) (TimesOut 0))
      (world_of (validate Sample.twoSiblings (SData Sample.D)
                   "onValidated" "onValidationFailed" 0 fresh))
    = Some (Normal w') /\
    m_face w' = Some (mkFace []) /\
    log w' = [] ++ added /\
    failures added
    = replicate 2 (bindFailure "onValidationFailed" (SData Sample.D)).
Proof.
  apply (proj2 (failure_once_per_request Sample.twoSiblings (SData Sample.D)
                  "onValidated" "onValidationFailed" 0 [] fresh (mkFace [])
                  _ _ eq_refl eq_refl eq_refl)).
  reflexivity.
Defined.

Lemma new_entries_behind f h rs e :
  e ∈ map (pending_of f) (fresh_steps h rs) ->
  (length h <= timeout_request e)%nat /\ closure_of e = f.
Proof.
  intros Hin. apply list_elem_of_fmap in Hin as (it & -> & Hit).
  split; [|reflexivity]. apply fresh_steps_ptr in Hit. exact Hit.
Qed.

Lemma owned_validate P s v k n a b c w :
  owned a b c w ->
  exists w', validate P s v k n w = Normal w' /\ owned a b c w'.
Proof.
  intros (Hb & fc & Hf & Hall).
  rewrite (validate_with_face P s v k n w fc Hf).
  eexists. split; [reflexivity|]. split.
  - cbn [heap]. rewrite length_app. lia.
  - eexists. split; [reflexivity|]. cbn [pit]. intros e He Hrange.
    apply elem_of_app in He as [He|He]; [apply Hall; assumption|].
    apply new_entries_behind in He as [Hge _]. lia.
Qed.

Lemma owned_step P ev a b c w out :
  owned a b c w -> step P ev w = Some out ->
  exists w', out = Normal w' /\ owned a b c w'.
Proof.
  intros (Hb & fc & Hf & Hall) Hs.
  destruct (step_inv _ _ _ _ Hs)
    as (fc' & m & i & q & retry & f & p & Hf' & Hn & Hcase).
  rewrite Hf in Hf'. injection Hf' as <-.
  assert (Hrest : forall e, e ∈ delete m (pit fc) -> e ∈ pit fc).
  { intros e He. eapply elem_of_submseteq; [exact He|apply submseteq_delete]. }
  destruct Hcase as [[-> ->] | (d & r & -> & Hr & ->)].
  - unfold onTimeout, expressInterest, record, remove_pending. rewrite Hf.
    destruct (0 <? retry); eexists; (split; [reflexivity|]);
      (split; [exact Hb|]); eexists; (split; [reflexivity|]); cbn [pit];
      intros e He Hrange.
    + apply elem_of_app in He as [He|He]; [apply Hall; auto|].
      apply list_elem_of_singleton in He. subst e.
      apply (Hall (mkPending i (BindOnData q) (BindOnTimeout retry f p)));
        [eapply list_elem_of_lookup_2; exact Hn|exact Hrange].
    + apply Hall; auto.
  - apply owned_validate. split; [exact Hb|].
    unfold remove_pending. rewrite Hf. eexists. split; [reflexivity|].
    cbn [pit]. intros e He. apply Hall, Hrest, He.
Qed.

Lemma owned_run P evs a b c w w' :
  owned a b c w -> run P evs w = Some (Normal w') -> owned a b c w'.
Proof.
  intros Ho Hrun.
  destruct (run_invariant P (owned a b c) (fun _ => True))
    with (evs := evs) (w := w) (out := Normal w') as (w'' & E & Ho'); auto.
  - intros ev w0 out0 _. apply owned_step.
  - apply Forall_forall. auto.
  - injection E as <-. exact Ho'.
Qed.

(** The requests a validate call returns are owned by its closure. *)
Lemma owned_after_validate P s v k n w fc w' :
  m_face w = Some fc ->
  (forall e, e ∈ pit fc -> (timeout_request e < length (heap w))%nat) ->
  validate P s v k n w = Normal w' ->
  owned (length (heap w)) (length (heap w')) (bindFailure k s) w'.
Proof.
  intros Hf Hold Hv.
  rewrite (validate_with_face P s v k n w fc Hf) in Hv. injection Hv as <-.
  split; [reflexivity|]. eexists. split; [reflexivity|]. cbn [pit heap].
  intros e He Hrange. apply elem_of_app in He as [He|He].
  - specialize (Hold e He). lia.
  - apply new_entries_behind in He as [_ Hc]. exact Hc.
Qed.

Lemma disciplined_pointers w fc :
  disciplined w -> m_face w = Some fc ->
  forall e, e ∈ pit fc -> (timeout_request e < length (heap w))%nat.
Proof.
  intros (fc' & Hf' & _ & EO & _) Hf e He.
  rewrite Hf in Hf'. injection Hf' as <-.
  rewrite Forall_forall in EO.
  destruct (EO e He) as (p & r & retry & f & -> & Hp & _).
  simpl. eapply lookup_lt_Some. exact Hp.
Qed.

(** The closure an exhausted timeout invokes, for a request owned by c. *)
Lemma owned_exhaustion P a b c w fc m i q retry f p :
  owned a b c w ->
  m_face w = Some fc ->
  pit fc !! m = Some (mkPending i (BindOnData q) (BindOnTimeout retry f p)) ->
  (a <= p < b)%nat -> retry <= 0 ->
  exists w', step P (TimesOut m) w = Some (Normal w') /\
             log w' = log w ++ [EvOnFailure c].
Proof.
  intros (_ & fc' & Hf' & Hall) Hf Hm Hrange Hle.
  rewrite Hf in Hf'. injection Hf' as <-.
  assert (Hc : f = c).
  { apply (Hall (mkPending i (BindOnData q) (BindOnTimeout retry f p)));
      [eapply list_elem_of_lookup_2; exact Hm|exact Hrange]. }
  subst f.
  rewrite (exhausted_timeout_fails P m w fc i q retry c p Hf Hm Hle).
  eexists. split; reflexivity.
Qed.

(** C3 (amended): when the retries of a ValidationRequest run out, the
    failure closure invoked is the one bound by the validate call that
    issued that very request.  For a request returned to the top-level
    call it is the caller's failure continuation bound to the top-level
    subject.  For a request returned to the validate call that onData made
    for a certificate d, fetched by a request with record r, it is the
    stored failure continuation m_onDataValidated of r bound to d,
    whatever happens between the issue and the last timeout. *)
Theorem failure_bound_to_issuing_call P s v k n w1 :
  validate P s v k n fresh = Normal w1 ->
  (forall evs w2 fc m i q retry f p,
     run P evs w1 = Some (Normal w2) ->
     m_face w2 = Some fc ->
     pit fc !! m = Some (mkPending i (BindOnData q) (BindOnTimeout retry f p)) ->
     (p < length (heap w1))%nat ->
     retry <= 0 ->
     exists w3,
       step P (TimesOut m) w2 = Some (Normal w3) /\
       log w3 = log w2 ++ [EvOnFailure (bindFailure k s)])
  /\ (forall evs1 w2 fc2 m2 e2 r d w3 evs3 w4 fc4 m i q retry f p,
     run P evs1 w1 = Some (Normal w2) ->
     m_face w2 = Some fc2 ->
     pit fc2 !! m2 = Some e2 ->
     heap w2 !! request_of e2 = Some r ->
     step P (DataArrives m2 d) w2 = Some (Normal w3) ->
     run P evs3 w3 = Some (Normal w4) ->
     m_face w4 = Some fc4 ->
     pit fc4 !! m = Some (mkPending i (BindOnData q) (BindOnTimeout retry f p)) ->
     (length (heap w2) <= p < length (heap w3))%nat ->
     retry <= 0 ->
     exists w5,
       step P (TimesOut m) w4 = Some (Normal w5) /\
       log w5 = log w4
                ++ [EvOnFailure (bindFailure (m_onDataValidated r) (SData d))]).
Proof.
  intros Hv. split.
  - intros evs w2 fc m i q retry f p Hrun Hf Hm Hp Hle.
    pose proof (owned_after_validate P s v k n fresh (mkFace []) w1 eq_refl
                  ltac:(intros e He; apply elem_of_nil in He; destruct He) Hv)
      as Ho.
    pose proof (owned_run P evs _ _ _ w1 w2 Ho Hrun) as Ho2.
    eapply owned_exhaustion; eauto. simpl. lia.
  - intros evs1 w2 fc2 m2 e2 r d w3 evs3 w4 fc4 m i q retry f p
           Hrun1 Hf2 Hm2 Hr Hs Hrun3 Hf4 Hm Hp Hle.
    destruct (disciplined_run P s v k n evs1 w1 (Normal w2) Hv Hrun1)
      as (w2' & E & Hd2). injection E as <-.
    rewrite (step_data P m2 d w2 fc2 e2 r Hf2 Hm2 Hr) in Hs.
    injection Hs as Hv3.
    assert (Ho3 : owned (length (heap w2)) (length (heap w3))
                    (bindFailure (m_onDataValidated r) (SData d)) w3).
    { apply (owned_after_validate P (SData d) (m_onValidated r)
               (m_onDataValidated r) (m_stepCount r) (remove_pending m2 w2)
               (mkFace (delete m2 (pit fc2))) w3).
      - unfold remove_pending. rewrite Hf2. reflexivity.
      - cbn [pit]. intros e He.
        apply (disciplined_pointers w2 fc2 Hd2 Hf2).
        eapply elem_of_submseteq; [exact He|apply submseteq_delete].
      - exact Hv3. }
    pose proof (owned_run P evs3 _ _ _ w3 w4 Ho3 Hrun3) as Ho4.
    eapply owned_exhaustion; eauto.
Qed.

Lemma failure_bound_to_issuing_call_witness :
  exists w5,
    step Sample.chain (TimesOut 0)
      (world_of (default (Normal fresh)
         (step Sample.chain (DataArrives 0 Sample.certA)
            (world_of (validate Sample.chain (SData Sample.D)
                         "onValidated" "onValidationFailed" 0 fresh)))))
    = Some (Normal w5) /\
    log w5
    = log (world_of (default (Normal fresh)
             (step Sample.chain (DataArrives 0 Sample.certA)
                (world_of (validate Sample.chain (SData Sample.D)
                             "onValidated" "onValidationFailed" 0 fresh)))))
      ++ [EvOnFailure (bindFailure "onCertificateValidationFailed"
                         (SData Sample.certA))].
Proof.
  apply (proj2 (failure_bound_to_issuing_call Sample.chain (SData Sample.D)
                  "onValidated" "onValidationFailed" 0 _ eq_refl)
           [] _ _ 0%nat _ (Sample.request Sample.interestA 2 1) Sample.certA
           _ [] _ _ 0%nat Sample.interestB 1%nat 0
           (bindFailure "onCertificateValidationFailed" (SData Sample.certA))
           1%nat
           eq_refl eq_refl eq_refl eq_refl eq_refl eq_refl eq_refl eq_refl).
  - simpl. lia.
  - lia.
Defined.
